(** * Task manager: the task controller, the Task model and the client list

    A shallow embedding of
      - [models/Task.js]               (the Mongoose schema [taskSchema]),
      - [controllers/taskController.js] ([getTasks], [createTask],
        [updateTask], [deleteTask]),
      - [frontend/src/App.js]          ([handleCreateTask],
        [handleUpdateTask], [handleDeleteTask]),
    together with the authentication service the specification describes.

    The collection is a list of documents in insertion order.  Every
    awaited Mongoose call is a function from the collection to a promise
    outcome ([Resolved] or [Rejected]) and the new collection; a
    controller turns the outcome into an HTTP response the way its
    [try]/[catch] does.

    Scope of the model.  Strings are sequences of ASCII code units.  A
    request body carries, for each String path, either nothing
    ([undefined]) or a string; for the Date and ObjectId paths it carries
    the outcome of Mongoose's cast of the JSON value.  JSON [null] and
    update operators ([$set], [$unset], ...) in a body are outside the
    model.  What an operation returns is stated for a store that answers
    ([Connected]); what happens when the store call throws is the subject
    of the error properties. *)

From Stdlib Require Import ZArith NArith Ascii String List Sorting.Sorted.
From stdpp Require Import base decidable option numbers list sorting strings.

Local Open Scope string_scope.
Local Open Scope Z_scope.
Local Open Scope list_scope.

(** ** Identifiers, time and strings *)

(** A MongoDB ObjectId, abstracted to a number. *)
Abbreviation ObjectId := N.

(** A JavaScript [Date], in milliseconds since the epoch. *)
Abbreviation Time := Z.

(** The ASCII part of what [String.prototype.trim] strips: TAB, LF, VT,
    FF, CR and SPACE. *)
Definition isWhiteSpace (c : ascii) : bool :=
  let n := N_of_ascii c in
  ((9 <=? n) && (n <=? 13) || (n =? 32))%N.

Fixpoint trimStart (s : string) : string :=
  match s with
  | String c s' => if isWhiteSpace c then trimStart s' else s
  | EmptyString => EmptyString
  end.

Definition trimEnd (s : string) : string :=
  String.rev (trimStart (String.rev s)).

Definition trim (s : string) : string := trimEnd (trimStart s).

(** [n] copies of one character, to build long titles. *)
Fixpoint repeatChar (c : ascii) (n : nat) : string :=
  match n with
  | O => EmptyString
  | S n' => String c (repeatChar c n')
  end.

(** ** The schema (models/Task.js) *)

(** The options a String path of the schema can carry. *)
Record StringPath := {
  required : bool;
  trimOption : bool;
  maxlength : option nat;
  enum : option (list string);
  defaultValue : option string
}.

Definition title_path : StringPath :=
  {| required := true; trimOption := true; maxlength := Some 100%nat;
     enum := None; defaultValue := None |}.

Definition description_path : StringPath :=
  {| required := false; trimOption := true; maxlength := Some 500%nat;
     enum := None; defaultValue := None |}.

Definition status_enum : list string := ["todo"; "in-progress"; "completed"].

Definition status_path : StringPath :=
  {| required := false; trimOption := false; maxlength := None;
     enum := Some status_enum; defaultValue := Some "todo" |}.

Definition priority_enum : list string := ["low"; "medium"; "high"].

Definition priority_path : StringPath :=
  {| required := false; trimOption := false; maxlength := None;
     enum := Some priority_enum; defaultValue := Some "medium" |}.

(** A stored task document.  [timestamps: true] adds [createdAt] and
    [updatedAt]; [_id] is the primary key. *)
Record Task := {
  _id : ObjectId;
  title : option string;
  description : option string;
  status : option string;
  priority : option string;
  dueDate : option Time;
  user : ObjectId;
  createdAt : Time;
  updatedAt : Time
}.

Global Instance Task_eq_dec : EqDecision Task.
Proof. solve_decision. Defined.

(** The outcome of casting a JSON value to the type of its path. *)
Inductive Cast (A : Type) : Type :=
  | CastOk (a : A)
  | CastFail (raw : string).
Arguments CastOk {A} a.
Arguments CastFail {A} raw.

(** [req.body]: the paths of the schema a client can send. *)
Record Body := {
  body_title : option string;
  body_description : option string;
  body_status : option string;
  body_priority : option string;
  body_dueDate : option (Cast Time);
  body_user : option (Cast ObjectId)
}.

Definition emptyBody : Body :=
  {| body_title := None; body_description := None; body_status := None;
     body_priority := None; body_dueDate := None; body_user := None |}.

(** ** Mongoose: errors and promise outcomes *)

Inductive ValidatorKind := VRequired | VMaxlength | VEnum | VCast.

Definition PathError : Type := string * ValidatorKind.

(** What an awaited Mongoose call can throw. *)
Inductive Error :=
  | MongooseValidationError (errors : list PathError)
  | MongooseCastError (path : string) (raw : string)
  | MongoError (msg : string).

Inductive Result (A : Type) : Type :=
  | Resolved (a : A)
  | Rejected (e : Error).
Arguments Resolved {A} a.
Arguments Rejected {A} e.

(** The connection to the store: it answers, or the driver throws. *)
Inductive Connection :=
  | Connected
  | Failing (msg : string).

(** ** Mongoose: casting and validating a String path *)

(** Setters and defaults: an absent value takes the default, a present
    one is trimmed when the path says so. *)
Definition castString (p : StringPath) (v : option string) : option string :=
  match v with
  | Some s => Some (if trimOption p then trim s else s)
  | None => defaultValue p
  end.

(** The setters alone, as an update runs them (no default is applied). *)
Definition setString (p : StringPath) (s : string) : string :=
  if trimOption p then trim s else s.

Definition checkRequired (p : StringPath) (s : string) : list ValidatorKind :=
  if required p && (String.length s =? 0)%nat then [VRequired] else [].

Definition checkMaxlength (p : StringPath) (s : string) : list ValidatorKind :=
  match maxlength p with
  | Some n => if (String.length s <=? n)%nat then [] else [VMaxlength]
  | None => []
  end.

Definition checkEnum (p : StringPath) (s : string) : list ValidatorKind :=
  match enum p with
  | Some values => if bool_decide (s ∈ values) then [] else [VEnum]
  | None => []
  end.

(** The validators of a path on a value that is present. *)
Definition validateValue (p : StringPath) (s : string) : list ValidatorKind :=
  checkRequired p s ++ checkMaxlength p s ++ checkEnum p s.

(** The validators of a path on a document: an absent value only fails
    [required]. *)
Definition validateString (p : StringPath) (v : option string)
  : list ValidatorKind :=
  match v with
  | Some s => validateValue p s
  | None => if required p then [VRequired] else []
  end.

Definition atPath (path : string) (ks : list ValidatorKind) : list PathError :=
  map (fun k => (path, k)) ks.

Definition castDate (v : option (Cast Time)) : option Time * list PathError :=
  match v with
  | None => (None, [])
  | Some (CastOk t) => (Some t, [])
  | Some (CastFail _) => (None, [("dueDate", VCast)])
  end.

(** ** Mongoose: the Task model *)

(** The collection, in insertion order. *)
Abbreviation Store := (list Task).

(** [new Task({ title, description, status, priority, dueDate, user })]:
    casts every path and applies the defaults; a failed cast is kept for
    validation.  The timestamps are the ones [save] will write. *)
Definition new_Task (oid : ObjectId) (now : Time) (uid : ObjectId) (b : Body)
  : Task * list PathError :=
  let '(due, castErrors) := castDate (body_dueDate b) in
  ({| _id := oid;
      title := castString title_path (body_title b);
      description := castString description_path (body_description b);
      status := castString status_path (body_status b);
      priority := castString priority_path (body_priority b);
      dueDate := due;
      user := uid;
      createdAt := now;
      updatedAt := now |}, castErrors).

(** Document validation, path by path in schema order. *)
Definition validateTask (t : Task) : list PathError :=
  atPath "title" (validateString title_path (title t))
  ++ atPath "description" (validateString description_path (description t))
  ++ atPath "status" (validateString status_path (status t))
  ++ atPath "priority" (validateString priority_path (priority t)).

Definition hasId (oid : ObjectId) (t : Task) : Prop := _id t = oid.

Definition ownedBy (uid : ObjectId) (t : Task) : Prop := user t = uid.

(** The filter [{ _id: id, user: uid }]. *)
Definition matches (oid uid : ObjectId) (t : Task) : Prop :=
  hasId oid t /\ ownedBy uid t.

Global Instance hasId_dec oid t : Decision (hasId oid t).
Proof. unfold hasId. apply _. Defined.

Global Instance ownedBy_dec uid t : Decision (ownedBy uid t).
Proof. unfold ownedBy. apply _. Defined.

Global Instance matches_dec oid uid t : Decision (matches oid uid t).
Proof. unfold matches. apply _. Defined.

(** [task.save()]: validate, then insert; the store refuses a second
    document with the same [_id]. *)
Definition Task_save (conn : Connection) (st : Store)
  (d : Task * list PathError) : Result Task * Store :=
  let '(t, castErrors) := d in
  match castErrors ++ validateTask t with
  | (_ :: _) as errors => (Rejected (MongooseValidationError errors), st)
  | [] =>
      match conn with
      | Failing msg => (Rejected (MongoError msg), st)
      | Connected =>
          if bool_decide (Exists (hasId (_id t)) st)
          then (Rejected (MongoError "E11000 duplicate key error"), st)
          else (Resolved t, st ++ [t])
      end
  end.

(** [a] comes no later than [b] in a list sorted by [{ createdAt: -1 }]. *)
Definition newerFirst (a b : Task) : Prop := createdAt b <= createdAt a.

Global Instance newerFirst_dec : RelDecision newerFirst.
Proof. intros a b. unfold newerFirst. apply _. Defined.

(** [Task.find({ user: uid }).sort({ createdAt: -1 })]. *)
Definition Task_find_sort (conn : Connection) (st : Store) (uid : ObjectId)
  : Result (list Task) :=
  match conn with
  | Failing msg => Rejected (MongoError msg)
  | Connected => Resolved (merge_sort newerFirst (filter (ownedBy uid) st))
  end.

(** The update document after casting: the paths to [$set]. *)
Record Update := {
  set_title : option string;
  set_description : option string;
  set_status : option string;
  set_priority : option string;
  set_dueDate : option Time;
  set_user : option ObjectId
}.

(** Casting [req.body] as an update: setters run on the String paths, a
    failed cast throws. *)
Definition castUpdate (b : Body) : Result Update :=
  match body_dueDate b, body_user b with
  | Some (CastFail raw), _ => Rejected (MongooseCastError "dueDate" raw)
  | _, Some (CastFail raw) => Rejected (MongooseCastError "user" raw)
  | due, owner =>
      Resolved
        {| set_title := setString title_path <$> body_title b;
           set_description := setString description_path <$> body_description b;
           set_status := setString status_path <$> body_status b;
           set_priority := setString priority_path <$> body_priority b;
           set_dueDate := match due with Some (CastOk t) => Some t | _ => None end;
           set_user := match owner with Some (CastOk o) => Some o | _ => None end |}
  end.

(** Update validators ([runValidators: true]) run on the paths the update
    names, and on those only. *)
Definition validateSet (p : StringPath) (v : option string)
  : list ValidatorKind :=
  match v with
  | Some s => validateValue p s
  | None => []
  end.

Definition validateUpdate (u : Update) : list PathError :=
  atPath "title" (validateSet title_path (set_title u))
  ++ atPath "description" (validateSet description_path (set_description u))
  ++ atPath "status" (validateSet status_path (set_status u))
  ++ atPath "priority" (validateSet priority_path (set_priority u)).

Definition orKeep {A} (new old : option A) : option A :=
  match new with
  | Some a => Some a
  | None => old
  end.

(** [$set] of the named paths; [timestamps: true] also sets [updatedAt]. *)
Definition applyUpdate (now : Time) (u : Update) (t : Task) : Task :=
  {| _id := _id t;
     title := orKeep (set_title u) (title t);
     description := orKeep (set_description u) (description t);
     status := orKeep (set_status u) (status t);
     priority := orKeep (set_priority u) (priority t);
     dueDate := orKeep (set_dueDate u) (dueDate t);
     user := default (user t) (set_user u);
     createdAt := createdAt t;
     updatedAt := now |}.

(** [Task.findOneAndUpdate({ _id, user }, req.body,
    { new: true, runValidators: true })]: cast the filter and the update,
    run the update validators, then update the first match in place and
    resolve to the document after the update, or to [null]. *)
Definition Task_findOneAndUpdate (conn : Connection) (now : Time) (st : Store)
  (id : Cast ObjectId) (uid : ObjectId) (b : Body)
  : Result (option Task) * Store :=
  match id with
  | CastFail raw => (Rejected (MongooseCastError "_id" raw), st)
  | CastOk oid =>
      match castUpdate b with
      | Rejected e => (Rejected e, st)
      | Resolved u =>
          match validateUpdate u with
          | (_ :: _) as errors => (Rejected (MongooseValidationError errors), st)
          | [] =>
              match conn with
              | Failing msg => (Rejected (MongoError msg), st)
              | Connected =>
                  match list_find (matches oid uid) st with
                  | None => (Resolved None, st)
                  | Some (i, t) =>
                      let t' := applyUpdate now u t in
                      (Resolved (Some t'), <[i := t']> st)
                  end
              end
          end
      end
  end.

(** [Task.findOneAndDelete({ _id, user })]. *)
Definition Task_findOneAndDelete (conn : Connection) (st : Store)
  (id : Cast ObjectId) (uid : ObjectId) : Result (option Task) * Store :=
  match id with
  | CastFail raw => (Rejected (MongooseCastError "_id" raw), st)
  | CastOk oid =>
      match conn with
      | Failing msg => (Rejected (MongoError msg), st)
      | Connected =>
          match list_find (matches oid uid) st with
          | None => (Resolved None, st)
          | Some (i, t) => (Resolved (Some t), delete i st)
          end
      end
  end.

(** ** The controllers (controllers/taskController.js) *)

Inductive Json :=
  | JsonTasks (tasks : list Task)
  | JsonTask (task : Task)
  | JsonMessage (message : string) (error : option Error).

Record Response := { statusCode : nat; json : Json }.

Definition getTasks (conn : Connection) (st : Store) (uid : ObjectId)
  : Response * Store :=
  match Task_find_sort conn st uid with
  | Resolved tasks => ({| statusCode := 200; json := JsonTasks tasks |}, st)
  | Rejected error =>
      ({| statusCode := 500; json := JsonMessage "Server error" (Some error) |}, st)
  end.

Definition createTask (conn : Connection) (oid : ObjectId) (now : Time)
  (st : Store) (uid : ObjectId) (b : Body) : Response * Store :=
  let task := new_Task oid now uid b in
  match Task_save conn st task with
  | (Resolved savedTask, st') =>
      ({| statusCode := 201; json := JsonTask savedTask |}, st')
  | (Rejected error, st') =>
      ({| statusCode := 400;
          json := JsonMessage "Error creating task" (Some error) |}, st')
  end.

Definition updateTask (conn : Connection) (now : Time) (st : Store)
  (uid : ObjectId) (id : Cast ObjectId) (b : Body) : Response * Store :=
  match Task_findOneAndUpdate conn now st id uid b with
  | (Resolved None, st') =>
      ({| statusCode := 404; json := JsonMessage "Task not found" None |}, st')
  | (Resolved (Some task), st') =>
      ({| statusCode := 200; json := JsonTask task |}, st')
  | (Rejected error, st') =>
      ({| statusCode := 400;
          json := JsonMessage "Error updating task" (Some error) |}, st')
  end.

Definition deleteTask (conn : Connection) (st : Store) (uid : ObjectId)
  (id : Cast ObjectId) : Response * Store :=
  match Task_findOneAndDelete conn st id uid with
  | (Resolved None, st') =>
      ({| statusCode := 404; json := JsonMessage "Task not found" None |}, st')
  | (Resolved (Some _), st') =>
      ({| statusCode := 200;
          json := JsonMessage "Task deleted successfully" None |}, st')
  | (Rejected error, st') =>
      ({| statusCode := 500; json := JsonMessage "Server error" (Some error) |}, st')
  end.

(** ** The task service as a state machine *)

(** One authenticated request to the task routes, with what the
    environment contributes to it: the connection, the fresh [_id] and the
    clock. *)
Inductive Request :=
  | GET_tasks (conn : Connection) (uid : ObjectId)
  | POST_tasks (conn : Connection) (oid : ObjectId) (now : Time)
      (uid : ObjectId) (b : Body)
  | PUT_tasks (conn : Connection) (now : Time) (uid : ObjectId)
      (id : Cast ObjectId) (b : Body)
  | DELETE_tasks (conn : Connection) (uid : ObjectId) (id : Cast ObjectId).

Definition handle (r : Request) (st : Store) : Response * Store :=
  match r with
  | GET_tasks conn uid => getTasks conn st uid
  | POST_tasks conn oid now uid b => createTask conn oid now st uid b
  | PUT_tasks conn now uid id b => updateTask conn now st uid id b
  | DELETE_tasks conn uid id => deleteTask conn st uid id
  end.

(** The collection after a sequence of requests. *)
Fixpoint serve (rs : list Request) (st : Store) : Store :=
  match rs with
  | [] => st
  | r :: rs' => serve rs' (snd (handle r st))
  end.

(** The collections the service can be in, starting empty. *)
Definition reachable (st : Store) : Prop := exists rs, serve rs [] = st.

(** ** Error classes *)

(** Modelled from the spec: the four error classes of its error handling
    section and the status code of each; the controllers themselves only
    write the numbers. *)
Inductive ErrorClass :=
  | ValidationError
  | AuthError
  | NotFoundError
  | ServerError.

Definition httpStatus (c : ErrorClass) : nat :=
  match c with
  | ValidationError => 400
  | AuthError => 401
  | NotFoundError => 404
  | ServerError => 500
  end.

(** A response is a failure of class [c]: it carries the status code of
    [c] and a JSON message. *)
Definition failsWith (c : ErrorClass) (r : Response) : Prop :=
  statusCode r = httpStatus c /\ exists message error, json r = JsonMessage message error.

Definition isError (r : Response) : Prop := (400 <= statusCode r)%nat.

(** ** The client (frontend/src/App.js) *)

(** The [tasks] state of [App].  An awaited [taskAPI] call either resolves
    to [response.data] or throws, and then the handler only logs. *)
Definition handleCreateTask (response : option Task) (tasks : list Task)
  : list Task :=
  match response with
  | Some data => data :: tasks
  | None => tasks
  end.

Definition handleUpdateTask (taskId : ObjectId) (response : option Task)
  (tasks : list Task) : list Task :=
  match response with
  | Some data =>
      map (fun task => if decide (_id task = taskId) then data else task) tasks
  | None => tasks
  end.

Definition handleDeleteTask (taskId : ObjectId) (response : option unit)
  (tasks : list Task) : list Task :=
  match response with
  | Some _ => filter (fun task => _id task <> taskId) tasks
  | None => tasks
  end.

(** What axios hands to the handler for a server response: the body of a
    2xx answer that is a task. *)
Definition axiosTask (r : Response) : option Task :=
  match json r with
  | JsonTask data =>
      if (200 <=? statusCode r)%nat && (statusCode r <? 300)%nat
      then Some data else None
  | _ => None
  end.

(** ** The authentication service *)

Module Auth.

(** Modelled from the spec: the User record of the data model (the User
    model is not among the sources): identifier, unique email, hashed
    password with its salt, creation timestamp. *)
Record User := {
  userId : ObjectId;
  email : string;
  salt : string;
  passwordHash : string;
  registeredAt : Time
}.

(** Modelled from the spec: a bearer token names its user and its expiry
    and carries a signature (the token code is not among the sources). *)
Record Token := {
  subject : ObjectId;
  expires : Time;
  signature : string
}.

(** The [Authorization] header of a request. *)
Inductive Bearer :=
  | Missing
  | Malformed (raw : string)
  | Presented (t : Token).

Section Service.

(** The salted password hash and the signature under the signing secret. *)
Variable hash : string -> string -> string.
Variable sign : ObjectId -> Time -> string.
Variable lifetime : Time.

Definition issue (uid : ObjectId) (now : Time) : Token :=
  {| subject := uid; expires := now + lifetime;
     signature := sign uid (now + lifetime) |}.

Definition hasEmail (e : string) (u : User) : Prop := email u = e.

Global Instance hasEmail_dec e u : Decision (hasEmail e u).
Proof. unfold hasEmail. apply _. Defined.

(** Modelled from the spec: [register(email, password)] (the auth
    controller is not among the sources) fails if the email is already in
    use; otherwise it stores a salted hash of the password and returns a
    signed token. *)
Definition register (oid : ObjectId) (s : string) (now : Time)
  (e password : string) (users : list User) : option Token * list User :=
  if bool_decide (Exists (hasEmail e) users)
  then (None, users)
  else (Some (issue oid now),
        users ++ [{| userId := oid; email := e; salt := s;
                     passwordHash := hash s password; registeredAt := now |}]).

(** Modelled from the spec: [login(email, password)] fails with AuthError
    if the credentials are invalid and returns a signed token otherwise. *)
Definition login (now : Time) (e password : string) (users : list User)
  : ErrorClass + Token :=
  match list_find (hasEmail e) users with
  | Some (_, u) =>
      if bool_decide (hash (salt u) password = passwordHash u)
      then inr (issue (userId u) now)
      else inl AuthError
  | None => inl AuthError
  end.

(** Modelled from the spec: [verify(token)] fails with AuthError if the
    token is missing, malformed, expired, or its signature is invalid;
    otherwise it yields the identity of the owning user. *)
Definition verify (now : Time) (header : Bearer) : ErrorClass + ObjectId :=
  match header with
  | Missing => inl AuthError
  | Malformed _ => inl AuthError
  | Presented t =>
      if bool_decide (signature t = sign (subject t) (expires t))
         && bool_decide (now < expires t)
      then inr (subject t)
      else inl AuthError
  end.

(** One call of [register] with what the environment contributes. *)
Record Registration := {
  reg_oid : ObjectId;
  reg_salt : string;
  reg_now : Time;
  reg_email : string;
  reg_password : string
}.

Definition registerCall (r : Registration) (users : list User)
  : option Token * list User :=
  register (reg_oid r) (reg_salt r) (reg_now r) (reg_email r)
    (reg_password r) users.

(** The credential store after a sequence of registrations. *)
Fixpoint registerAll (rs : list Registration) (users : list User)
  : list User :=
  match rs with
  | [] => users
  | r :: rs' => registerAll rs' (snd (registerCall r users))
  end.

(** The user records of the store that carry the email [e]. *)
Definition recordsFor (e : string) (users : list User) : list User :=
  filter (hasEmail e) users.

End Service.

End Auth.

(** ** Vocabulary of the properties *)

(** A list in the order of [sort({ createdAt: -1 })]. *)
Definition newestFirst (l : list Task) : Prop := StronglySorted newerFirst l.

(** The authenticated caller of a request ([req.user.id]). *)
Definition caller (r : Request) : ObjectId :=
  match r with
  | GET_tasks _ uid => uid
  | POST_tasks _ _ _ uid _ => uid
  | PUT_tasks _ _ uid _ _ => uid
  | DELETE_tasks _ uid _ => uid
  end.

(** The ways a request of [uid] may change the collection: not at all, by
    adding a task of [uid], or by replacing or removing a task that
    belongs to [uid]. *)
Inductive scopedTo (uid : ObjectId) (st : Store) : Store -> Prop :=
  | scoped_same : scopedTo uid st st
  | scoped_insert t : user t = uid -> scopedTo uid st (st ++ [t])
  | scoped_update i t t' :
      st !! i = Some t -> user t = uid -> scopedTo uid st (<[i := t']> st)
  | scoped_delete i t :
      st !! i = Some t -> user t = uid -> scopedTo uid st (delete i st).

(** The body passes the casts and the validators of [save]. *)
Definition validForCreate (oid : ObjectId) (now : Time) (uid : ObjectId)
  (b : Body) : Prop :=
  snd (new_Task oid now uid b) ++ validateTask (fst (new_Task oid now uid b)) = [].

(** The body passes the casts and the update validators. *)
Definition validForUpdate (b : Body) : Prop :=
  exists u, castUpdate b = Resolved u /\ validateUpdate u = [].

(** The constraints on the fields of a new task, read off the schema:
    the title is missing, empty once trimmed, or longer than 100
    characters once trimmed; the description is longer than 500 characters
    once trimmed; a status or a priority is supplied that is not in its
    enum; the due date does not cast to a date. *)
Definition violatesSchema (b : Body) : Prop :=
  match body_title b with
  | None => True
  | Some s => trim s = EmptyString \/ (100 < String.length (trim s))%nat
  end
  \/ (exists d, body_description b = Some d /\ (500 < String.length (trim d))%nat)
  \/ (exists s, body_status b = Some s /\ s ∉ status_enum)
  \/ (exists p, body_priority b = Some p /\ p ∉ priority_enum)
  \/ (exists raw, body_dueDate b = Some (CastFail raw)).

(** The constraints as the specification lists them for [create]: title
    missing or longer than 100 characters, or description longer than 500
    characters. *)
Definition violatesListedConstraints (b : Body) : Prop :=
  body_title b = None
  \/ (exists s, body_title b = Some s /\ (100 < String.length s)%nat)
  \/ (exists d, body_description b = Some d /\ (500 < String.length d)%nat).

(** The status and the priority of a task are values of their enums. *)
Definition enumsOk (t : Task) : Prop :=
  (exists s, status t = Some s /\ s ∈ status_enum)
  /\ (exists p, priority t = Some p /\ p ∈ priority_enum).

(** The [_id]s of the collection are pairwise distinct. *)
Definition uniqueIds (st : Store) : Prop := NoDup (_id <$> st).

(** What a body asks an update to write at a path: the value after the
    setters, or nothing. *)
Definition requested (p : StringPath) (v : option string) : option string :=
  match v with
  | Some s => Some (if trimOption p then trim s else s)
  | None => None
  end.

(** ** Sample requests *)

(** A body that only has a title. *)
Definition titleOnly (s : string) : Body :=
  {| body_title := Some s; body_description := None; body_status := None;
     body_priority := None; body_dueDate := None; body_user := None |}.

(** A body that only has a status. *)
Definition statusOnly (s : string) : Body :=
  {| body_title := None; body_description := None; body_status := Some s;
     body_priority := None; body_dueDate := None; body_user := None |}.

(** A body with a title and a status. *)
Definition titleAndStatus (s st : string) : Body :=
  {| body_title := Some s; body_description := None; body_status := Some st;
     body_priority := None; body_dueDate := None; body_user := None |}.

(** The task that user 7 gets from [POST { title: "X" }] at time 100 with
    the fresh [_id] 1, and the collection that holds just this task. *)
Definition taskX : Task :=
  {| _id := 1%N; title := Some "X"; description := None;
     status := Some "todo"; priority := Some "medium"; dueDate := None;
     user := 7%N; createdAt := 100; updatedAt := 100 |}.

Definition storeX : Store := [taskX].

(** Stand-ins for the hash and the signature in the examples. *)
Definition sampleHash (s password : string) : string := s ++ password.

Definition sampleSign (uid : ObjectId) (exp : Time) : string := "signed".

(** A second task of user 7, older than [taskX]. *)
Definition taskY : Task :=
  {| _id := 2%N; title := Some "Y"; description := None;
     status := Some "todo"; priority := Some "low"; dueDate := None;
     user := 7%N; createdAt := 50; updatedAt := 50 |}.

(** ** Vocabulary of the further properties *)

(** A string that does not start, or does not end, with white space. *)
Definition noLeadingSpace (s : string) : Prop :=
  match s with
  | String c _ => isWhiteSpace c = false
  | EmptyString => True
  end.

Definition noTrailingSpace (s : string) : Prop :=
  noLeadingSpace (String.rev s).

(** A stored task satisfies the schema: it has a title that is not empty,
    has at most 100 characters and no white space around it; its
    description, if any, has at most 500 characters and no white space
    around it; its status and priority are values of their enums. *)
Definition storedOk (t : Task) : Prop :=
  (exists s, title t = Some s /\ s <> EmptyString
             /\ (String.length s <= 100)%nat
             /\ noLeadingSpace s /\ noTrailingSpace s)
  /\ (forall d, description t = Some d ->
        (String.length d <= 500)%nat
        /\ noLeadingSpace d /\ noTrailingSpace d)
  /\ enumsOk t.

(** The collection in the order of creation, with a clock that went
    forward between any two creations. *)
Definition chronological (st : Store) : Prop :=
  StronglySorted (fun a b => createdAt a < createdAt b) st.

(** A task whose [updatedAt] has been set again and nothing else. *)
Definition touched (now : Time) (t : Task) : Task :=
  {| _id := _id t; title := title t; description := description t;
     status := status t; priority := priority t; dueDate := dueDate t;
     user := user t; createdAt := createdAt t; updatedAt := now |}.

(** The clock of a creation is later than every task already stored. *)
Definition timely (st : Store) (r : Request) : Prop :=
  match r with
  | POST_tasks _ _ now _ _ => Forall (fun t => createdAt t < now) st
  | _ => True
  end.

(** The user an update hands the task to, if the body names one. *)
Definition newOwner (b : Body) : option ObjectId :=
  match body_user b with
  | Some (CastOk v) => Some v
  | _ => None
  end.

(** The user a request hands a task to: only an update can, by naming
    [user] in its body. *)
Definition handsOver (r : Request) : option ObjectId :=
  match r with
  | PUT_tasks _ _ _ _ b => newOwner b
  | _ => None
  end.

(** ** The client: what axios hands over, the session, the routes *)

(** [response.data] of a 2xx answer that is a list of tasks. *)
Definition axiosTasks (r : Response) : option (list Task) :=
  match json r with
  | JsonTasks data =>
      if (200 <=? statusCode r)%nat && (statusCode r <? 300)%nat
      then Some data else None
  | _ => None
  end.

(** An awaited call whose answer is not read resolves on every 2xx
    answer. *)
Definition axiosOk (r : Response) : option unit :=
  if (200 <=? statusCode r)%nat && (statusCode r <? 300)%nat
  then Some tt else None.

(** The list [fetchTasks] would put in the state of user [uid] on the
    collection [st]. *)
Definition fetched (st : Store) (uid : ObjectId) : list Task :=
  default [] (axiosTasks (fst (getTasks Connected st uid))).

(** [if (token)] on what [localStorage.getItem] returns: [null] and the
    empty string are falsy. *)
Definition truthy (token : option string) : bool :=
  match token with
  | Some (String _ _) => true
  | _ => false
  end.

(** The request interceptor of services/api.js: the [Authorization]
    header it adds, if any. *)
Definition authorization (token : option string) : option string :=
  match token with
  | Some tok => if truthy token then Some ("Bearer " ++ tok)%string else None
  | None => None
  end.

(** [handleStatusChange] of TaskItem: the id and the body it passes to
    [onUpdate], [{ ...task, status: newStatus }].  Of the spread, the
    paths a body of this model has are kept; a stored date and owner cast
    back to themselves. *)
Definition handleStatusChange (task : Task) (newStatus : string)
  : ObjectId * Body :=
  (_id task,
   {| body_title := title task;
      body_description := description task;
      body_status := Some newStatus;
      body_priority := priority task;
      body_dueDate := CastOk <$> dueDate task;
      body_user := Some (CastOk (user task)) |}).

Module App.

(** The state of [App] ([useState]) together with the [token] entry of
    [localStorage]. *)
Record State := {
  token : option string;
  isAuthenticated : bool;
  tasks : list Task;
  loading : bool
}.

(** The first render, on a [localStorage] that holds [stored]. *)
Definition initial (stored : option string) : State :=
  {| token := stored; isAuthenticated := false; tasks := []; loading := true |}.

(** A call that has been sent and not yet answered.  The handlers read
    [tasks] from the render they were created in, so a call carries the
    list of the moment it was started. *)
Inductive Call :=
  | FetchTasks
  | CreateTask (captured : list Task)
  | UpdateTask (taskId : ObjectId) (captured : list Task)
  | DeleteTask (taskId : ObjectId) (captured : list Task).

(** What the rest of an async handler does once its call is answered. *)
Definition complete (c : Call) (r : Response) (s : State) : State :=
  match c with
  | FetchTasks =>
      match axiosTasks r with
      | Some data =>
          {| token := token s; isAuthenticated := isAuthenticated s;
             tasks := data; loading := false |}
      | None =>
          {| token := token s; isAuthenticated := isAuthenticated s;
             tasks := tasks s; loading := false |}
      end
  | CreateTask captured =>
      match axiosTask r with
      | Some data =>
          {| token := token s; isAuthenticated := isAuthenticated s;
             tasks := handleCreateTask (Some data) captured;
             loading := loading s |}
      | None => s
      end
  | UpdateTask taskId captured =>
      match axiosTask r with
      | Some data =>
          {| token := token s; isAuthenticated := isAuthenticated s;
             tasks := handleUpdateTask taskId (Some data) captured;
             loading := loading s |}
      | None => s
      end
  | DeleteTask taskId captured =>
      match axiosOk r with
      | Some ok =>
          {| token := token s; isAuthenticated := isAuthenticated s;
             tasks := handleDeleteTask taskId (Some ok) captured;
             loading := loading s |}
      | None => s
      end
  end.

Inductive Event :=
  | Mount
  | Login (tok : string)
  | Logout
  | StartCreate
  | StartUpdate (taskId : ObjectId)
  | StartDelete (taskId : ObjectId)
  | Answer (n : nat) (r : Response).

(** One event on the state and the calls in flight: the effect of the
    first render, [handleLogin], [handleLogout], the start of a task
    handler, or the answer to the [n]-th call in flight. *)
Definition step (e : Event) (sc : State * list Call) : State * list Call :=
  let '(s, calls) := sc in
  match e with
  | Mount =>
      if truthy (token s)
      then ({| token := token s; isAuthenticated := true; tasks := tasks s;
               loading := loading s |}, calls ++ [FetchTasks])
      else ({| token := token s; isAuthenticated := isAuthenticated s;
               tasks := tasks s; loading := false |}, calls)
  | Login tok =>
      ({| token := Some tok; isAuthenticated := true; tasks := tasks s;
          loading := loading s |}, calls ++ [FetchTasks])
  | Logout =>
      ({| token := None; isAuthenticated := false; tasks := [];
          loading := loading s |}, calls)
  | StartCreate => (s, calls ++ [CreateTask (tasks s)])
  | StartUpdate taskId => (s, calls ++ [UpdateTask taskId (tasks s)])
  | StartDelete taskId => (s, calls ++ [DeleteTask taskId (tasks s)])
  | Answer n r =>
      match calls !! n with
      | Some c => (complete c r s, delete n calls)
      | None => (s, calls)
      end
  end.

Fixpoint run (es : list Event) (sc : State * list Call) : State * list Call :=
  match es with
  | [] => sc
  | e :: es' => run es' (step e sc)
  end.

(** The page opened anew on the same [localStorage]. *)
Definition reload (s : State) : State * list Call :=
  step Mount (initial (token s), []).

(** The route the location matches. *)
Inductive Location := AtLogin | AtRegister | AtDashboard | AtRoot | Elsewhere.

Inductive View :=
  | LoadingScreen
  | LoginForm
  | RegisterForm
  | Dashboard (shown : list Task)
  | Navigate (to : Location)
  | Blank.

(** What [App] returns at a location. *)
Definition render (s : State) (loc : Location) : View :=
  if loading s then LoadingScreen
  else
    match loc with
    | AtLogin => if isAuthenticated s then Navigate AtDashboard else LoginForm
    | AtRegister =>
        if isAuthenticated s then Navigate AtDashboard else RegisterForm
    | AtDashboard =>
        if isAuthenticated s then Dashboard (tasks s) else Navigate AtLogin
    | AtRoot => Navigate (if isAuthenticated s then AtDashboard else AtLogin)
    | Elsewhere => Blank
    end.

(** Following [Navigate] at most [n] times. *)
Fixpoint settle (n : nat) (s : State) (loc : Location) : View :=
  match render s loc, n with
  | Navigate to, S n' => settle n' s to
  | v, _ => v
  end.

(** The app is authenticated exactly when [localStorage] holds a token
    the interceptor would send. *)
Definition consistent (s : State) : Prop :=
  isAuthenticated s = truthy (token s).

(** No login with an empty token. *)
Definition properLogin (e : Event) : Prop :=
  match e with
  | Login tok => tok <> EmptyString
  | _ => True
  end.

End App.

(** A third task of user 7, newer than [taskX]. *)
Definition taskZ : Task :=
  {| _id := 3%N; title := Some "Z"; description := None;
     status := Some "todo"; priority := Some "medium"; dueDate := None;
     user := 7%N; createdAt := 300; updatedAt := 300 |}.

(** * Properties *)

(** ** The order of [sort({ createdAt: -1 })] *)

Global Instance newerFirst_trans : Transitive newerFirst.
Proof. intros a b c. unfold newerFirst. lia. Qed.

Global Instance newerFirst_total : Total newerFirst.
Proof. intros a b. unfold newerFirst. lia. Qed.

Lemma Task_find_sort_connected st uid :
  exists tasks,
    Task_find_sort Connected st uid = Resolved tasks
    /\ tasks ≡ₚ filter (ownedBy uid) st
    /\ newestFirst tasks.
Proof.
  eexists. split; [reflexivity|]. split.
  - apply merge_sort_Permutation.
  - apply StronglySorted_merge_sort; apply _.
Qed.

Lemma elem_of_listed st uid t :
  t ∈ merge_sort newerFirst (filter (ownedBy uid) st) <-> t ∈ st /\ user t = uid.
Proof.
  rewrite merge_sort_Permutation. rewrite list_elem_of_filter.
  unfold ownedBy. tauto.
Qed.

(** C1: for every user, [getTasks] answers 200 with exactly the tasks of
    the collection whose [user] is the caller (the same tasks, each as
    often as it is stored), ordered newest first: every task of the answer
    has a [createdAt] no smaller than that of every task after it. *)
Theorem getTasks_owned_newest_first (st : Store) (uid : ObjectId) :
  exists tasks,
    getTasks Connected st uid
      = ({| statusCode := 200; json := JsonTasks tasks |}, st)
    /\ tasks ≡ₚ filter (fun t => user t = uid) st
    /\ (forall t, t ∈ tasks <-> t ∈ st /\ user t = uid)
    /\ StronglySorted (fun a b => createdAt b <= createdAt a) tasks.
Proof.
  destruct (Task_find_sort_connected st uid) as (tasks & Hfind & Hperm & Hsorted).
  exists tasks. unfold getTasks. rewrite Hfind.
  split; [reflexivity|]. split; [exact Hperm|]. split; [|exact Hsorted].
  intros t. rewrite Hperm, list_elem_of_filter. unfold ownedBy. tauto.
Qed.

(** ** What [createTask] does *)

Lemma createTask_cases conn oid now st uid b :
  let t := fst (new_Task oid now uid b) in
  (validForCreate oid now uid b /\ conn = Connected /\ ~ Exists (hasId oid) st
   /\ createTask conn oid now st uid b
      = ({| statusCode := 201; json := JsonTask t |}, st ++ [t]))
  \/ (exists e,
       createTask conn oid now st uid b
       = ({| statusCode := 400;
             json := JsonMessage "Error creating task" (Some e) |}, st)
       /\ ((~ validForCreate oid now uid b
            /\ exists errors, e = MongooseValidationError errors)
           \/ (validForCreate oid now uid b /\ exists msg, e = MongoError msg))).
Proof.
  intros t. unfold createTask, Task_save, validForCreate.
  destruct (new_Task oid now uid b) as [t0 castErrors] eqn:Hnew.
  subst t. simpl.
  destruct (castErrors ++ validateTask t0) as [|e errors] eqn:Hval.
  - destruct conn as [|msg].
    + assert (_id t0 = oid) as Hid.
      { unfold new_Task in Hnew. destruct (castDate (body_dueDate b)).
        inversion Hnew. reflexivity. }
      rewrite Hid. case_bool_decide as Hdup.
      * right. eexists. split; [reflexivity|]. right. eauto.
      * left. auto.
    + right. eexists. split; [reflexivity|]. right. eauto.
  - right. eexists. split; [reflexivity|]. left. split; [discriminate|eauto].
Qed.

Lemma createTask_created conn oid now st uid b resp st' :
  createTask conn oid now st uid b = (resp, st') ->
  statusCode resp = 201%nat ->
  let t := fst (new_Task oid now uid b) in
  validForCreate oid now uid b /\ conn = Connected /\ ~ Exists (hasId oid) st
  /\ resp = {| statusCode := 201; json := JsonTask t |} /\ st' = st ++ [t].
Proof.
  intros Hcreate Hstatus t.
  destruct (createTask_cases conn oid now st uid b)
    as [(Hv & Hc & Hfresh & Heq) | (e & Heq & _)];
    rewrite Heq in Hcreate; inversion Hcreate; subst; simpl in *.
  - auto.
  - discriminate.
Qed.

Lemma new_Task_fields oid now uid b :
  let t := fst (new_Task oid now uid b) in
  _id t = oid /\ user t = uid /\ createdAt t = now /\ updatedAt t = now
  /\ title t = castString title_path (body_title b)
  /\ description t = castString description_path (body_description b)
  /\ status t = castString status_path (body_status b)
  /\ priority t = castString priority_path (body_priority b).
Proof.
  unfold new_Task. destruct (castDate (body_dueDate b)). simpl. tauto.
Qed.

(** ** Ownership scoping *)

Lemma list_find_matches oid uid (st : Store) i t :
  list_find (matches oid uid) st = Some (i, t) ->
  st !! i = Some t /\ _id t = oid /\ user t = uid.
Proof.
  intros (Hi & [Hid Hown] & _)%list_find_Some. auto.
Qed.

Lemma list_find_matches_None oid uid (st : Store) :
  list_find (matches oid uid) st = None <-> ~ Exists (matches oid uid) st.
Proof.
  rewrite list_find_None, <- Forall_Exists_neg. reflexivity.
Qed.

Lemma handle_scoped (r : Request) (st : Store) :
  scopedTo (caller r) st (snd (handle r st)).
Proof.
  destruct r as [conn uid | conn oid now uid b | conn now uid id b | conn uid id];
    simpl.
  - unfold getTasks. destruct (Task_find_sort conn st uid); constructor.
  - destruct (createTask_cases conn oid now st uid b)
      as [(_ & _ & _ & Heq) | (e & Heq & _)]; rewrite Heq; simpl.
    + constructor. apply new_Task_fields.
    + constructor.
  - unfold updateTask, Task_findOneAndUpdate.
    destruct id as [oid | raw]; [|constructor].
    destruct (castUpdate b) as [u | e]; [|constructor].
    destruct (validateUpdate u); [|constructor].
    destruct conn; [|constructor].
    destruct (list_find (matches oid uid) st) as [[i t]|] eqn:Hfind;
      [|constructor].
    apply list_find_matches in Hfind as (Hi & _ & Hown).
    simpl. econstructor; eauto.
  - unfold deleteTask, Task_findOneAndDelete.
    destruct id as [oid | raw]; [|constructor].
    destruct conn; [|constructor].
    destruct (list_find (matches oid uid) st) as [[i t]|] eqn:Hfind;
      [|constructor].
    apply list_find_matches in Hfind as (Hi & _ & Hown).
    simpl. econstructor; eauto.
Qed.

(** A change scoped to [uid] keeps every task of another user, at the
    position it had among the tasks of that user. *)
Lemma scopedTo_others uid (st st' : Store) v :
  scopedTo uid st st' -> v <> uid ->
  forall t, user t = v -> t ∈ st -> t ∈ st'.
Proof.
  intros Hscoped Hv t Ht Hin. destruct Hscoped as [| t0 H0 | i t0 t' Hi H0 | i t0 Hi H0].
  - exact Hin.
  - apply elem_of_app. auto.
  - apply list_elem_of_lookup in Hin as [j Hj].
    apply list_elem_of_lookup. exists j.
    rewrite list_lookup_insert_ne; [exact Hj|].
    intros ->. rewrite Hi in Hj. inversion Hj. subst. congruence.
  - apply list_elem_of_lookup in Hin as [j Hj].
    assert (j <> i) as Hne.
    { intros ->. rewrite Hi in Hj. inversion Hj. subst. congruence. }
    apply list_elem_of_lookup.
    destruct (decide (j < i)%nat).
    + exists j. rewrite list_lookup_delete_lt by lia. exact Hj.
    + exists (pred j). rewrite list_lookup_delete_ge by lia.
      replace (S (pred j)) with j by lia. exact Hj.
Qed.

(** Requests of other users leave a task of [u] where it is. *)
Lemma serve_keeps_others (rs : list Request) (st : Store) u t :
  Forall (fun r => caller r <> u) rs ->
  user t = u -> t ∈ st -> t ∈ serve rs st.
Proof.
  revert st. induction rs as [|r rs IH]; intros st Hrs Hu Hin; simpl;
    [exact Hin|].
  apply Forall_cons in Hrs as [Hr Hrs]. apply IH; [exact Hrs|exact Hu|].
  apply (scopedTo_others (caller r) st _ u (handle_scoped r st)); auto.
Qed.

(** C2: a task created by [u] is in the list of [u] and in the list of no
    other user [v], right after its creation and after any requests of
    other users; no task in the list of [v] has its [_id].  And every
    request changes the collection only by adding a task of its caller or
    by replacing or removing a task whose [user] is its caller, so that
    the tasks of every other user stay, and [getTasks] only returns tasks
    whose [user] is the caller. *)
Theorem created_task_owner_only (conn : Connection) (oid : ObjectId)
  (now : Time) (st : Store) (u : ObjectId) (b : Body) (resp : Response)
  (st' : Store) :
  createTask conn oid now st u b = (resp, st') ->
  statusCode resp = 201%nat ->
  (exists t,
      json resp = JsonTask t /\ user t = u /\ _id t = oid
      /\ (forall rs, Forall (fun r => caller r <> u) rs ->
            (exists tasks,
                getTasks Connected (serve rs st') u
                  = ({| statusCode := 200; json := JsonTasks tasks |},
                     serve rs st')
                /\ t ∈ tasks)
            /\ (forall v, v <> u ->
                  exists tasks,
                    getTasks Connected (serve rs st') v
                      = ({| statusCode := 200; json := JsonTasks tasks |},
                         serve rs st')
                    /\ (t ∉ tasks)))
      /\ (forall v, v <> u ->
            exists tasks,
              getTasks Connected st' v
                = ({| statusCode := 200; json := JsonTasks tasks |}, st')
              /\ (forall t', t' ∈ tasks -> _id t' <> oid)))
  /\ (forall r s,
        scopedTo (caller r) s (snd (handle r s))
        /\ (forall t, t ∈ s -> user t <> caller r -> t ∈ snd (handle r s))
        /\ (forall tasks, json (fst (handle r s)) = JsonTasks tasks ->
              forall t, t ∈ tasks -> user t = caller r)).
Proof.
  intros Hcreate Hstatus.
  destruct (createTask_created _ _ _ _ _ _ _ _ Hcreate Hstatus)
    as (_ & _ & Hfresh & -> & ->).
  destruct (new_Task_fields oid now u b) as (Hid & Huser & _).
  set (t := fst (new_Task oid now u b)) in *.
  assert (t ∈ st ++ [t]) as Hin
    by (apply elem_of_app; right; apply list_elem_of_singleton; reflexivity).
  split.
  - exists t. split; [reflexivity|]. split; [exact Huser|]. split; [exact Hid|].
    split.
    + intros rs Hrs. split.
      * eexists. split; [reflexivity|].
        apply elem_of_listed. split; [|exact Huser].
        apply (serve_keeps_others rs _ u t Hrs Huser Hin).
      * intros v Hv. eexists. split; [reflexivity|].
        rewrite elem_of_listed. intros [_ Hu]. congruence.
    + intros v Hv. eexists. split; [reflexivity|].
      intros t' [Hin' Hu]%elem_of_listed Hid'.
      apply elem_of_app in Hin' as [Hin' | Hin'%list_elem_of_singleton].
      * apply Hfresh. apply Exists_exists. exists t'. split; [|exact Hid'].
        exact Hin'.
      * subst t'. congruence.
  - intros r s. split; [apply handle_scoped|]. split.
    + intros t0 Hin0 Hne.
      eapply (scopedTo_others (caller r) s _ (user t0)); eauto using handle_scoped.
    + destruct r as [c uid | c o n uid b0 | c n uid id b0 | c uid id]; simpl.
      * unfold getTasks. destruct c; simpl; [|discriminate].
        intros tasks [= <-] t0 Hin0. apply elem_of_listed in Hin0. tauto.
      * destruct (createTask_cases c o n s uid b0)
          as [(_ & _ & _ & Heq) | (e & Heq & _)]; rewrite Heq; simpl; discriminate.
      * unfold updateTask.
        destruct (Task_findOneAndUpdate c n s id uid b0) as [[[?|]|] ?];
          simpl; discriminate.
      * unfold deleteTask.
        destruct (Task_findOneAndDelete c s id uid) as [[[?|]|] ?];
          simpl; discriminate.
Qed.

Lemma created_task_owner_only_witness :
  createTask Connected 1%N 100 [] 7%N (titleOnly "X")
    = ({| statusCode := 201; json := JsonTask taskX |}, storeX)
  /\ (forall v, v <> 7%N ->
        exists tasks,
          getTasks Connected storeX v
            = ({| statusCode := 200; json := JsonTasks tasks |}, storeX)
          /\ (taskX ∉ tasks)).
Proof.
  split; [reflexivity|].
  destruct (created_task_owner_only Connected 1%N 100 [] 7%N (titleOnly "X")
              {| statusCode := 201; json := JsonTask taskX |} storeX
              eq_refl eq_refl) as [(t & Hjson & _ & _ & Hlater & _) _].
  injection Hjson as <-.
  intros v Hv. destruct (Hlater [] (Forall_nil_2 _)) as [_ Hothers].
  exact (Hothers v Hv).
Defined.

(** ** The round trip through [createTask] and [getTasks] *)

Lemma trim_X : trim "X" = "X".
Proof. reflexivity. Qed.

(** C4: for every user, after a [createTask] that succeeds on a body with
    title "X" and no status (whatever its other fields), [getTasks] for
    that user answers a list with a task whose title is "X" and whose
    status is "todo". *)
Theorem create_then_list_round_trip (conn : Connection) (oid : ObjectId)
  (now : Time) (st : Store) (uid : ObjectId) (b : Body) (resp : Response)
  (st' : Store) :
  body_title b = Some "X" ->
  body_status b = None ->
  createTask conn oid now st uid b = (resp, st') ->
  statusCode resp = 201%nat ->
  exists tasks t,
    getTasks Connected st' uid
      = ({| statusCode := 200; json := JsonTasks tasks |}, st')
    /\ t ∈ tasks
    /\ title t = Some "X"
    /\ status t = Some "todo".
Proof.
  intros Htitle Hnostatus Hcreate Hstatus.
  destruct (createTask_created _ _ _ _ _ _ _ _ Hcreate Hstatus)
    as (_ & _ & _ & _ & ->).
  destruct (new_Task_fields oid now uid b)
    as (_ & Huser & _ & _ & Ht & _ & Hs & _).
  eexists. exists (fst (new_Task oid now uid b)).
  split; [reflexivity|]. split.
  - apply elem_of_listed. split; [|exact Huser].
    apply elem_of_app. right. apply list_elem_of_singleton. reflexivity.
  - rewrite Ht, Hs, Htitle, Hnostatus. simpl. rewrite trim_X. auto.
Qed.

Lemma create_then_list_round_trip_witness :
  exists tasks t,
    getTasks Connected storeX 7%N
      = ({| statusCode := 200; json := JsonTasks tasks |}, storeX)
    /\ t ∈ tasks /\ title t = Some "X" /\ status t = Some "todo".
Proof.
  exact (create_then_list_round_trip Connected 1%N 100 [] 7%N (titleOnly "X")
           {| statusCode := 201; json := JsonTask taskX |} storeX
           eq_refl eq_refl eq_refl eq_refl).
Defined.

(** The general form of the round trip: the stored title is the trimmed
    one. *)
Lemma create_then_list_trimmed conn oid now st uid b resp st' s :
  body_title b = Some s ->
  createTask conn oid now st uid b = (resp, st') ->
  statusCode resp = 201%nat ->
  exists t, t ∈ merge_sort newerFirst (filter (ownedBy uid) st')
            /\ title t = Some (trim s).
Proof.
  intros Htitle Hcreate Hstatus.
  destruct (createTask_created _ _ _ _ _ _ _ _ Hcreate Hstatus)
    as (_ & _ & _ & _ & ->).
  destruct (new_Task_fields oid now uid b) as (_ & Huser & _ & _ & Ht & _).
  exists (fst (new_Task oid now uid b)). split.
  - apply elem_of_listed. split; [|exact Huser].
    apply elem_of_app. right. apply list_elem_of_singleton. reflexivity.
  - rewrite Ht, Htitle. reflexivity.
Qed.

(** ** Validation *)

Lemma atPath_nil path ks : atPath path ks = [] -> ks = [].
Proof. destruct ks; [reflexivity|discriminate]. Qed.

Lemma checkEnum_ok p s values :
  enum p = Some values -> checkEnum p s = [] <-> s ∈ values.
Proof.
  intros Henum. unfold checkEnum. rewrite Henum.
  case_bool_decide; split; intros; try done.
Qed.

Lemma validateValue_nil p s :
  validateValue p s = []
  <-> checkRequired p s = [] /\ checkMaxlength p s = [] /\ checkEnum p s = [].
Proof.
  unfold validateValue. split.
  - intros [H1 [H2 H3]%app_eq_nil]%app_eq_nil. auto.
  - intros (-> & -> & ->). reflexivity.
Qed.

Lemma validateTask_nil t :
  validateTask t = []
  <-> validateString title_path (title t) = []
      /\ validateString description_path (description t) = []
      /\ validateString status_path (status t) = []
      /\ validateString priority_path (priority t) = [].
Proof.
  unfold validateTask. split.
  - intros [H1%atPath_nil [H2%atPath_nil [H3%atPath_nil H4%atPath_nil]
      %app_eq_nil]%app_eq_nil]%app_eq_nil. auto.
  - intros (-> & -> & -> & ->). reflexivity.
Qed.

Lemma validateUpdate_nil u :
  validateUpdate u = []
  <-> validateSet title_path (set_title u) = []
      /\ validateSet description_path (set_description u) = []
      /\ validateSet status_path (set_status u) = []
      /\ validateSet priority_path (set_priority u) = [].
Proof.
  unfold validateUpdate. split.
  - intros [H1%atPath_nil [H2%atPath_nil [H3%atPath_nil H4%atPath_nil]
      %app_eq_nil]%app_eq_nil]%app_eq_nil. auto.
  - intros (-> & -> & -> & ->). reflexivity.
Qed.

(** A path with an enum and a default in it: a validated document value
    is a value of the enum. *)
Lemma enum_path_created p values d v :
  enum p = Some values -> defaultValue p = Some d -> d ∈ values ->
  trimOption p = false ->
  validateString p (castString p v) = [] ->
  exists s, castString p v = Some s /\ s ∈ values.
Proof.
  intros Henum Hdefault Hd Htrim Hvalid. destruct v as [s|]; simpl in *.
  - rewrite Htrim in *. exists s. split; [reflexivity|].
    apply validateValue_nil in Hvalid as (_ & _ & Hvalid).
    eapply checkEnum_ok; eauto.
  - rewrite Hdefault. eauto.
Qed.

Lemma enum_path_updated p values (new old : option string) :
  enum p = Some values ->
  validateSet p new = [] ->
  (exists s, old = Some s /\ s ∈ values) ->
  exists s, orKeep new old = Some s /\ s ∈ values.
Proof.
  intros Henum Hvalid Hold. destruct new as [s|]; simpl in *; [|exact Hold].
  exists s. split; [reflexivity|].
  apply validateValue_nil in Hvalid as (_ & _ & Hvalid).
  eapply checkEnum_ok; eauto.
Qed.

Lemma todo_in_enum : "todo" ∈ status_enum.
Proof. unfold status_enum. apply list_elem_of_here. Qed.

Lemma medium_in_enum : "medium" ∈ priority_enum.
Proof. unfold priority_enum. apply list_elem_of_further, list_elem_of_here. Qed.

Lemma new_Task_enumsOk oid now uid b :
  validForCreate oid now uid b -> enumsOk (fst (new_Task oid now uid b)).
Proof.
  unfold validForCreate. intros [_ Hvalid]%app_eq_nil.
  apply validateTask_nil in Hvalid as (_ & _ & Hs & Hp).
  destruct (new_Task_fields oid now uid b)
    as (_ & _ & _ & _ & _ & _ & Es & Ep).
  rewrite Es in Hs. rewrite Ep in Hp. unfold enumsOk. rewrite Es, Ep. split.
  - eapply enum_path_created; eauto using todo_in_enum; reflexivity.
  - eapply enum_path_created; eauto using medium_in_enum; reflexivity.
Qed.

Lemma applyUpdate_enumsOk now u t :
  validateUpdate u = [] -> enumsOk t -> enumsOk (applyUpdate now u t).
Proof.
  intros (_ & _ & Hs & Hp)%validateUpdate_nil [Hst Hpt].
  unfold enumsOk, applyUpdate. simpl. split.
  - eapply enum_path_updated; eauto; reflexivity.
  - eapply enum_path_updated; eauto; reflexivity.
Qed.

(** Every request keeps the enums of every stored task. *)
Lemma handle_enumsOk r st :
  Forall enumsOk st -> Forall enumsOk (snd (handle r st)).
Proof.
  intros Hst.
  destruct r as [conn uid | conn oid now uid b | conn now uid id b | conn uid id];
    simpl.
  - unfold getTasks. destruct (Task_find_sort conn st uid); exact Hst.
  - destruct (createTask_cases conn oid now st uid b)
      as [(Hvalid & _ & _ & Heq) | (e & Heq & _)]; rewrite Heq; simpl.
    + apply Forall_app. split; [exact Hst|].
      apply Forall_singleton. apply new_Task_enumsOk, Hvalid.
    + exact Hst.
  - unfold updateTask, Task_findOneAndUpdate.
    destruct id as [oid | raw]; [|exact Hst].
    destruct (castUpdate b) as [u | e]; [|exact Hst].
    destruct (validateUpdate u) eqn:Hvalid; [|exact Hst].
    destruct conn; [|exact Hst].
    destruct (list_find (matches oid uid) st) as [[i t]|] eqn:Hfind;
      [|exact Hst].
    apply list_find_matches in Hfind as (Hi & _ & _).
    simpl. apply Forall_insert; [exact Hst|].
    apply applyUpdate_enumsOk; [exact Hvalid|].
    eapply Forall_lookup_1; eauto.
  - unfold deleteTask, Task_findOneAndDelete.
    destruct id as [oid | raw]; [|exact Hst].
    destruct conn; [|exact Hst].
    destruct (list_find (matches oid uid) st) as [[i t]|]; [|exact Hst].
    simpl. apply Forall_delete, Hst.
Qed.

Lemma serve_enumsOk rs st :
  Forall enumsOk st -> Forall enumsOk (serve rs st).
Proof.
  revert st. induction rs as [|r rs IH]; intros st Hst; simpl.
  - exact Hst.
  - apply IH, handle_enumsOk, Hst.
Qed.

(** C6: a [createTask] that succeeds on a body without status stores the
    task with status "todo"; one that succeeds on a body without priority
    stores it with priority "medium"; and in every collection the service
    can reach from the empty one, every task has a status among todo,
    in-progress, completed and a priority among low, medium, high. *)
Theorem defaults_and_enums :
  (forall conn oid now st uid b resp st',
      createTask conn oid now st uid b = (resp, st') ->
      statusCode resp = 201%nat ->
      exists t,
        json resp = JsonTask t /\ t ∈ st' /\ _id t = oid
        /\ (body_status b = None -> status t = Some "todo")
        /\ (body_priority b = None -> priority t = Some "medium"))
  /\ (forall st, reachable st ->
        forall t, t ∈ st ->
          (exists s, status t = Some s
                     /\ s ∈ ["todo"; "in-progress"; "completed"])
          /\ (exists p, priority t = Some p
                        /\ p ∈ ["low"; "medium"; "high"])).
Proof.
  split.
  - intros conn oid now st uid b resp st' Hcreate Hstatus.
    destruct (createTask_created _ _ _ _ _ _ _ _ Hcreate Hstatus)
      as (_ & _ & _ & -> & ->).
    destruct (new_Task_fields oid now uid b)
      as (Hid & _ & _ & _ & _ & _ & Es & Ep).
    exists (fst (new_Task oid now uid b)).
    split; [reflexivity|]. split.
    { apply elem_of_app. right. apply list_elem_of_singleton. reflexivity. }
    split; [exact Hid|]. split.
    + intros Hnone. rewrite Es, Hnone. reflexivity.
    + intros Hnone. rewrite Ep, Hnone. reflexivity.
  - intros st [rs <-] t Hin.
    assert (Forall enumsOk (serve rs [])) as Hall
      by (apply serve_enumsOk; constructor).
    rewrite Forall_forall in Hall. exact (Hall t Hin).
Qed.

Lemma defaults_and_enums_witness :
  (exists t,
      t ∈ storeX /\ status t = Some "todo" /\ priority t = Some "medium")
  /\ (exists s, status taskX = Some s
                /\ s ∈ ["todo"; "in-progress"; "completed"]).
Proof.
  destruct defaults_and_enums as [Hcreate Hreach]. split.
  - destruct (Hcreate Connected 1%N 100 [] 7%N (titleOnly "X")
                {| statusCode := 201; json := JsonTask taskX |} storeX
                eq_refl eq_refl) as (t & _ & Hin & _ & Hs & Hp).
    exists t. split; [exact Hin|]. split; [exact (Hs eq_refl)|exact (Hp eq_refl)].
  - assert (reachable storeX) as Hr.
    { exists [POST_tasks Connected 1%N 100 7%N (titleOnly "X")]. reflexivity. }
    apply (Hreach storeX Hr taskX). apply list_elem_of_here.
Defined.

(** ** The constraints [createTask] enforces *)

Lemma length_zero s : (String.length s =? 0)%nat = true <-> s = EmptyString.
Proof. destruct s; simpl; split; intros; try done. Qed.

Lemma title_valid v :
  validateString title_path (castString title_path v) = []
  <-> exists s, v = Some s /\ trim s <> EmptyString
                /\ (String.length (trim s) <= 100)%nat.
Proof.
  destruct v as [s|]; simpl.
  - unfold validateValue, checkRequired, checkMaxlength, checkEnum. simpl.
    destruct (String.length (trim s) =? 0)%nat eqn:Hlen.
    + apply length_zero in Hlen. split; [discriminate|].
      intros (s' & [= <-] & Hne & _). contradiction.
    + assert (trim s <> EmptyString) as Hne.
      { intros H%length_zero. congruence. }
      destruct (Nat.leb_spec (String.length (trim s)) 100) as [Hle|Hgt]; simpl.
      * split; eauto.
      * split; [discriminate|]. intros (s' & [= <-] & _ & Hle). lia.
  - split; [discriminate|]. intros (s & [=] & _).
Qed.

Lemma description_valid v :
  validateString description_path (castString description_path v) = []
  <-> forall d, v = Some d -> (String.length (trim d) <= 500)%nat.
Proof.
  destruct v as [d|]; simpl.
  - unfold validateValue, checkRequired, checkMaxlength, checkEnum. simpl.
    destruct (Nat.leb_spec (String.length (trim d)) 500) as [Hle|Hgt]; simpl.
    + split; [|reflexivity]. intros _ d' [= <-]. exact Hle.
    + split; [discriminate|]. intros H. specialize (H d eq_refl). lia.
  - split; [|reflexivity]. intros _ d [=].
Qed.

Lemma enum_valid p values d v :
  enum p = Some values -> defaultValue p = Some d -> d ∈ values ->
  trimOption p = false -> required p = false -> maxlength p = None ->
  validateString p (castString p v) = []
  <-> forall s, v = Some s -> s ∈ values.
Proof.
  intros Henum Hdefault Hd Htrim Hreq Hmax. destruct v as [s|]; simpl.
  - rewrite Htrim, validateValue_nil.
    unfold checkRequired, checkMaxlength. rewrite Hreq, Hmax. simpl.
    rewrite (checkEnum_ok p s values Henum). split.
    + intros (_ & _ & Hin) s' [= <-]. exact Hin.
    + intros H. auto.
  - rewrite Hdefault. simpl. rewrite validateValue_nil.
    unfold checkRequired, checkMaxlength. rewrite Hreq, Hmax. simpl.
    rewrite (checkEnum_ok p d values Henum). split; [|auto].
    intros _ s [=].
Qed.

Lemma castDate_valid v :
  snd (castDate v) = [] <-> forall raw, v <> Some (CastFail raw).
Proof.
  destruct v as [[t|raw]|]; simpl; split; try done.
  intros H. destruct (H raw). reflexivity.
Qed.

Lemma validForCreate_spec oid now uid b :
  validForCreate oid now uid b
  <-> (exists s, body_title b = Some s /\ trim s <> EmptyString
                 /\ (String.length (trim s) <= 100)%nat)
      /\ (forall d, body_description b = Some d ->
            (String.length (trim d) <= 500)%nat)
      /\ (forall s, body_status b = Some s -> s ∈ status_enum)
      /\ (forall p, body_priority b = Some p -> p ∈ priority_enum)
      /\ (forall raw, body_dueDate b <> Some (CastFail raw)).
Proof.
  unfold validForCreate.
  destruct (new_Task_fields oid now uid b)
    as (_ & _ & _ & _ & Et & Ed & Es & Ep).
  assert (snd (new_Task oid now uid b) = snd (castDate (body_dueDate b))) as Ec.
  { unfold new_Task. destruct (castDate (body_dueDate b)). reflexivity. }
  rewrite <- title_valid, <- description_valid, <- castDate_valid.
  rewrite <- (enum_valid status_path status_enum "todo" (body_status b))
    by (reflexivity || apply todo_in_enum).
  rewrite <- (enum_valid priority_path priority_enum "medium" (body_priority b))
    by (reflexivity || apply medium_in_enum).
  rewrite <- Et, <- Ed, <- Es, <- Ep, <- Ec.
  split.
  - intros [Hc Hv%validateTask_nil]%app_eq_nil. tauto.
  - intros (Ht & Hd & Hs & Hp & ->). simpl. apply validateTask_nil. tauto.
Qed.

Lemma title_cases (v : option string) :
  (exists s, v = Some s /\ trim s <> EmptyString /\ (String.length (trim s) <= 100)%nat)
  \/ match v with
     | None => True
     | Some s => trim s = EmptyString \/ (100 < String.length (trim s))%nat
     end.
Proof.
  destruct v as [s|]; [|right; exact I].
  destruct (decide (trim s = EmptyString)) as [He|Hne]; [right; left; exact He|].
  destruct (decide (100 < String.length (trim s))%nat) as [Hl|Hl];
    [right; right; exact Hl|].
  left. exists s. split; [reflexivity|]. split; [exact Hne|lia].
Qed.

Lemma description_cases (v : option string) :
  (forall d, v = Some d -> (String.length (trim d) <= 500)%nat)
  \/ (exists d, v = Some d /\ (500 < String.length (trim d))%nat).
Proof.
  destruct v as [d|]; [|left; intros ? [=]].
  destruct (decide (500 < String.length (trim d))%nat) as [Hl|Hl].
  - right. eauto.
  - left. intros ? [= <-]. lia.
Qed.

Lemma enum_cases (values : list string) (v : option string) :
  (forall s, v = Some s -> s ∈ values)
  \/ (exists s, v = Some s /\ s ∉ values).
Proof.
  destruct v as [s|]; [|left; intros ? [=]].
  destruct (decide (s ∈ values)) as [Hin|Hin].
  - left. intros ? [= <-]. exact Hin.
  - right. eauto.
Qed.

Lemma date_cases (v : option (Cast Time)) :
  (forall raw, v <> Some (CastFail raw))
  \/ (exists raw, v = Some (CastFail raw)).
Proof.
  destruct v as [[t|raw]|]; [left; discriminate | right; eauto | left; discriminate].
Qed.

Lemma violatesSchema_spec oid now uid b :
  violatesSchema b <-> ~ validForCreate oid now uid b.
Proof.
  rewrite validForCreate_spec. unfold violatesSchema. split.
  - intros [Ht | [(d & Hd & Hlen) | [(s & Hs & Hnot) | [(p & Hp & Hnot)
      | (raw & Hraw)]]]] ((s' & Hs' & Hne & Hle) & Hdesc & Hstat & Hprio & Hdue).
    + rewrite Hs' in Ht. destruct Ht; [contradiction|lia].
    + specialize (Hdesc d Hd). lia.
    + exact (Hnot (Hstat s Hs)).
    + exact (Hnot (Hprio p Hp)).
    + exact (Hdue raw Hraw).
  - intros Hnot.
    destruct (title_cases (body_title b)) as [Ht|Ht]; [|tauto].
    destruct (description_cases (body_description b)) as [Hd|Hd]; [|tauto].
    destruct (enum_cases status_enum (body_status b)) as [Hs|Hs]; [|tauto].
    destruct (enum_cases priority_enum (body_priority b)) as [Hp|Hp]; [|tauto].
    destruct (date_cases (body_dueDate b)) as [Hdue|Hdue]; [|tauto].
    tauto.
Qed.

Lemma validForCreate_of_schema oid now uid b :
  ~ violatesSchema b -> validForCreate oid now uid b.
Proof.
  intros Hok. unfold validForCreate.
  destruct (snd (new_Task oid now uid b)
            ++ validateTask (fst (new_Task oid now uid b))) eqn:Herrors;
    [reflexivity|].
  destruct Hok. apply (violatesSchema_spec oid now uid b).
  unfold validForCreate. rewrite Herrors. discriminate.
Qed.

(** C5 as stated fails in both directions.  A body with title "X" and the
    status "bogus" violates none of the listed constraints, and
    [createTask] rejects it with a validation error and persists nothing;
    a title of 100 letters followed by a space is longer than 100
    characters, and [createTask] accepts it (and stores the trimmed
    title). *)
Lemma create_listed_constraints_not_exact :
  (~ violatesListedConstraints (titleAndStatus "X" "bogus")
   /\ createTask Connected 1%N 100 [] 7%N (titleAndStatus "X" "bogus")
      = ({| statusCode := 400;
            json := JsonMessage "Error creating task"
                      (Some (MongooseValidationError [("status", VEnum)])) |},
         []))
  /\ (violatesListedConstraints (titleOnly (repeatChar "a" 100 ++ " "))
      /\ statusCode (fst (createTask Connected 1%N 100 [] 7%N
                            (titleOnly (repeatChar "a" 100 ++ " "))))
         = 201%nat).
Proof.
  split; split.
  - intros [H | [(s & [= <-] & Hlen) | (d & [=] & _)]].
    + discriminate.
    + simpl in Hlen. lia.
  - reflexivity.
  - right. left. eexists. split; [reflexivity|]. vm_compute. lia.
  - reflexivity.
Qed.

(** C5, amended: with a fresh [_id] and a store that answers, [createTask]
    fails with a validation error (status 400) and persists nothing
    exactly when the body violates the schema: title missing, empty once
    trimmed, or longer than 100 characters once trimmed; description
    longer than 500 characters once trimmed; a status or priority outside
    its enum; a due date that is no date.  Otherwise it appends the new
    task to the collection and answers 201 with it. *)
Theorem createTask_validates_schema (oid : ObjectId) (now : Time) (st : Store)
  (uid : ObjectId) (b : Body) :
  ~ Exists (fun t => _id t = oid) st ->
  (failsWith ValidationError (fst (createTask Connected oid now st uid b))
   <-> violatesSchema b)
  /\ (violatesSchema b ->
        exists errors,
          createTask Connected oid now st uid b
          = ({| statusCode := 400;
                json := JsonMessage "Error creating task"
                          (Some (MongooseValidationError errors)) |}, st))
  /\ (~ violatesSchema b ->
        exists t,
          createTask Connected oid now st uid b
          = ({| statusCode := 201; json := JsonTask t |}, st ++ [t])
          /\ _id t = oid /\ user t = uid /\ createdAt t = now).
Proof.
  intros Hfresh. rewrite (violatesSchema_spec oid now uid b).
  destruct (createTask_cases Connected oid now st uid b)
    as [(Hvalid & _ & _ & Heq)
       | (e & Heq & [(Hinvalid & errors & ->) | (Hvalid & msg & ->)])].
  - rewrite Heq. simpl. split; [|split].
    + split; [|contradiction]. intros [Hstatus _]. discriminate.
    + contradiction.
    + intros _. eexists. split; [reflexivity|].
      destruct (new_Task_fields oid now uid b) as (? & ? & ? & _). auto.
  - rewrite Heq. simpl. split; [|split].
    + split; [intros _; exact Hinvalid|]. intros _. split; [reflexivity|].
      simpl. eauto.
    + intros _. eauto.
    + contradiction.
  - exfalso. revert Heq. unfold createTask, Task_save.
    destruct (new_Task oid now uid b) as [t castErrors] eqn:Hnew.
    assert (_id t = oid) as Hid.
    { unfold new_Task in Hnew. destruct (castDate (body_dueDate b)).
      inversion Hnew. reflexivity. }
    unfold validForCreate in Hvalid. rewrite Hnew in Hvalid. simpl in Hvalid.
    rewrite Hvalid, Hid. rewrite bool_decide_eq_false_2 by exact Hfresh.
    discriminate.
Qed.

Lemma createTask_validates_schema_witness :
  ~ Exists (fun t => _id t = 2%N) storeX
  /\ exists t,
       createTask Connected 2%N 200 storeX 7%N (titleOnly "X")
       = ({| statusCode := 201; json := JsonTask t |}, storeX ++ [t])
       /\ _id t = 2%N /\ user t = 7%N /\ createdAt t = 200.
Proof.
  assert (~ Exists (fun t => _id t = 2%N) storeX) as Hfresh.
  { intros H. apply Exists_cons in H as [H | H%Exists_nil]; [discriminate H|exact H]. }
  split; [exact Hfresh|].
  apply (createTask_validates_schema 2%N 200 storeX 7%N (titleOnly "X") Hfresh).
  intros [Ht | [(d & [=] & _) | [(s & [=] & _) | [(p & [=] & _) | (raw & [=])]]]].
  simpl in Ht. destruct Ht as [Ht | Ht]; [discriminate Ht|vm_compute in Ht; lia].
Defined.

(** ** [updateTask] and [deleteTask] *)

Lemma validForUpdate_dec b : validForUpdate b \/ ~ validForUpdate b.
Proof.
  unfold validForUpdate. destruct (castUpdate b) as [u|e].
  - destruct (validateUpdate u) eqn:Hvalid.
    + left. eauto.
    + right. intros (u' & [= <-] & Hnil). congruence.
  - right. intros (u' & [=] & _).
Qed.

Lemma updateTask_valid conn now st uid oid b u :
  castUpdate b = Resolved u -> validateUpdate u = [] ->
  updateTask conn now st uid (CastOk oid) b
  = match conn with
    | Failing msg =>
        ({| statusCode := 400;
            json := JsonMessage "Error updating task" (Some (MongoError msg)) |},
         st)
    | Connected =>
        match list_find (matches oid uid) st with
        | None =>
            ({| statusCode := 404; json := JsonMessage "Task not found" None |},
             st)
        | Some (i, t) =>
            ({| statusCode := 200; json := JsonTask (applyUpdate now u t) |},
             <[i := applyUpdate now u t]> st)
        end
    end.
Proof.
  intros Hcast Hvalid. unfold updateTask, Task_findOneAndUpdate.
  rewrite Hcast, Hvalid. destruct conn; [|reflexivity].
  destruct (list_find (matches oid uid) st) as [[i t]|]; reflexivity.
Qed.

Lemma updateTask_invalid conn now st uid id b :
  ~ validForUpdate b ->
  exists e,
    updateTask conn now st uid id b
    = ({| statusCode := 400;
          json := JsonMessage "Error updating task" (Some e) |}, st).
Proof.
  intros Hinvalid. unfold updateTask, Task_findOneAndUpdate.
  destruct id as [oid|raw]; [|eauto].
  destruct (castUpdate b) as [u|e] eqn:Hcast; [|eauto].
  destruct (validateUpdate u) eqn:Hvalid; [|eauto].
  destruct Hinvalid. exists u. auto.
Qed.

Lemma updateTask_unowned_store conn now st uid oid b :
  ~ Exists (matches oid uid) st ->
  snd (updateTask conn now st uid (CastOk oid) b) = st.
Proof.
  intros Hnone%list_find_matches_None.
  destruct (validForUpdate_dec b) as [(u & Hcast & Hvalid) | Hinvalid].
  - rewrite (updateTask_valid conn now st uid oid b u Hcast Hvalid), Hnone.
    destruct conn; reflexivity.
  - destruct (updateTask_invalid conn now st uid (CastOk oid) b Hinvalid)
      as (e & ->). reflexivity.
Qed.

Lemma deleteTask_connected st uid oid :
  deleteTask Connected st uid (CastOk oid)
  = match list_find (matches oid uid) st with
    | None =>
        ({| statusCode := 404; json := JsonMessage "Task not found" None |}, st)
    | Some (i, t) =>
        ({| statusCode := 200;
            json := JsonMessage "Task deleted successfully" None |}, delete i st)
    end.
Proof.
  unfold deleteTask, Task_findOneAndDelete.
  destruct (list_find (matches oid uid) st) as [[i t]|]; reflexivity.
Qed.

Lemma deleteTask_unowned_store conn st uid oid :
  ~ Exists (matches oid uid) st ->
  snd (deleteTask conn st uid (CastOk oid)) = st.
Proof.
  intros Hnone%list_find_matches_None.
  unfold deleteTask, Task_findOneAndDelete. rewrite Hnone.
  destruct conn; reflexivity.
Qed.

(** C3 as stated fails.  User 8 owns no task with [_id] 1 (it belongs to
    user 7), yet an update of it with the status "bogus" is answered 400,
    not 404: the update validators run before the lookup.  And for an id
    that is no ObjectId, so that no task has it, [deleteTask] answers
    500. *)
Lemma unowned_update_not_always_404 :
  ~ Exists (fun t => _id t = 1%N /\ user t = 8%N) storeX
  /\ updateTask Connected 300 storeX 8%N (CastOk 1%N) (statusOnly "bogus")
     = ({| statusCode := 400;
           json := JsonMessage "Error updating task"
                     (Some (MongooseValidationError [("status", VEnum)])) |},
        storeX)
  /\ ~ failsWith NotFoundError
         (fst (updateTask Connected 300 storeX 8%N (CastOk 1%N)
                 (statusOnly "bogus")))
  /\ deleteTask Connected storeX 8%N (CastFail "abc")
     = ({| statusCode := 500;
           json := JsonMessage "Server error"
                     (Some (MongooseCastError "_id" "abc")) |}, storeX).
Proof.
  split; [|split; [|split]].
  - intros H. apply Exists_cons in H as [[_ H] | H%Exists_nil];
      [discriminate H|exact H].
  - reflexivity.
  - intros [H _]. discriminate H.
  - reflexivity.
Qed.

(** C3, amended: for every caller and every well-formed task id such that
    no task with that id is owned by the caller (also when another user
    owns one), [deleteTask] fails with NotFoundError; [updateTask] fails
    with NotFoundError when the body passes the casts and the update
    validators, and with status 400 when it does not; and in every case,
    whether the store answers or not, the collection is unchanged. *)
Theorem unowned_task_not_found (now : Time) (st : Store) (uid oid : ObjectId)
  (b : Body) :
  ~ Exists (fun t => _id t = oid /\ user t = uid) st ->
  deleteTask Connected st uid (CastOk oid)
  = ({| statusCode := 404; json := JsonMessage "Task not found" None |}, st)
  /\ failsWith NotFoundError (fst (deleteTask Connected st uid (CastOk oid)))
  /\ (validForUpdate b ->
        updateTask Connected now st uid (CastOk oid) b
        = ({| statusCode := 404; json := JsonMessage "Task not found" None |},
           st)
        /\ failsWith NotFoundError
             (fst (updateTask Connected now st uid (CastOk oid) b)))
  /\ (~ validForUpdate b ->
        exists e,
          updateTask Connected now st uid (CastOk oid) b
          = ({| statusCode := 400;
                json := JsonMessage "Error updating task" (Some e) |}, st))
  /\ (forall conn,
        snd (updateTask conn now st uid (CastOk oid) b) = st
        /\ snd (deleteTask conn st uid (CastOk oid)) = st).
Proof.
  intros Hnone.
  assert (list_find (matches oid uid) st = None) as Hfind
    by (apply list_find_matches_None; exact Hnone).
  assert (deleteTask Connected st uid (CastOk oid)
          = ({| statusCode := 404; json := JsonMessage "Task not found" None |},
             st)) as Hdelete
    by (rewrite deleteTask_connected, Hfind; reflexivity).
  split; [exact Hdelete|]. split.
  { rewrite Hdelete. split; [reflexivity|]. simpl. eauto. }
  split; [|split].
  - intros (u & Hcast & Hvalid).
    rewrite (updateTask_valid Connected now st uid oid b u Hcast Hvalid), Hfind.
    split; [reflexivity|]. split; [reflexivity|]. simpl. eauto.
  - apply updateTask_invalid.
  - intros conn. split.
    + apply updateTask_unowned_store, Hnone.
    + apply deleteTask_unowned_store, Hnone.
Qed.

Lemma unowned_task_not_found_witness :
  ~ Exists (fun t => _id t = 1%N /\ user t = 8%N) storeX
  /\ deleteTask Connected storeX 8%N (CastOk 1%N)
     = ({| statusCode := 404; json := JsonMessage "Task not found" None |},
        storeX).
Proof.
  assert (~ Exists (fun t => _id t = 1%N /\ user t = 8%N) storeX) as Hnone.
  { intros H. apply Exists_cons in H as [[_ H] | H%Exists_nil];
      [discriminate H|exact H]. }
  split; [exact Hnone|].
  exact (proj1 (unowned_task_not_found 300 storeX 8%N 1%N emptyBody Hnone)).
Defined.

(** ** Unique identifiers *)

Lemma list_find_owned (st : Store) i t :
  uniqueIds st -> st !! i = Some t ->
  list_find (matches (_id t) (user t)) st = Some (i, t).
Proof.
  intros Hnodup Hi. apply list_find_Some. split; [exact Hi|].
  split; [split; reflexivity|].
  intros j y Hj Hlt [Hid _]. unfold hasId in Hid.
  assert (j = i); [|lia].
  eapply (NoDup_lookup (_id <$> st) j i (_id t) Hnodup).
  - rewrite list_lookup_fmap, Hj. simpl. congruence.
  - rewrite list_lookup_fmap, Hi. reflexivity.
Qed.

Lemma applyUpdate_id now u t : _id (applyUpdate now u t) = _id t.
Proof. reflexivity. Qed.

Lemma handle_uniqueIds r st : uniqueIds st -> uniqueIds (snd (handle r st)).
Proof.
  unfold uniqueIds. intros Hst.
  destruct r as [conn uid | conn oid now uid b | conn now uid id b | conn uid id];
    simpl.
  - unfold getTasks. destruct (Task_find_sort conn st uid); exact Hst.
  - destruct (createTask_cases conn oid now st uid b)
      as [(_ & _ & Hfresh & Heq) | (e & Heq & _)]; rewrite Heq; simpl;
      [|exact Hst].
    rewrite fmap_app. apply NoDup_app. split; [exact Hst|].
    split; [|apply NoDup_singleton].
    intros x Hx Hx'. apply list_elem_of_singleton in Hx'. subst x.
    apply list_elem_of_fmap in Hx as (t0 & Hid & Hin).
    apply Hfresh, Exists_exists. exists t0. split; [exact Hin|].
    destruct (new_Task_fields oid now uid b) as [E _].
    unfold hasId. congruence.
  - unfold updateTask, Task_findOneAndUpdate.
    destruct id as [oid | raw]; [|exact Hst].
    destruct (castUpdate b) as [u | e]; [|exact Hst].
    destruct (validateUpdate u); [|exact Hst].
    destruct conn; [|exact Hst].
    destruct (list_find (matches oid uid) st) as [[i t]|] eqn:Hfind;
      [|exact Hst].
    apply list_find_matches in Hfind as (Hi & _ & _). simpl.
    rewrite list_fmap_insert, applyUpdate_id, list_insert_id; [exact Hst|].
    rewrite list_lookup_fmap, Hi. reflexivity.
  - unfold deleteTask, Task_findOneAndDelete.
    destruct id as [oid | raw]; [|exact Hst].
    destruct conn; [|exact Hst].
    destruct (list_find (matches oid uid) st) as [[i t]|]; [|exact Hst].
    simpl. rewrite list_fmap_delete.
    eapply sublist_NoDup; [exact Hst|apply sublist_delete].
Qed.

(** Every collection the service can reach has pairwise distinct [_id]s. *)
Lemma reachable_uniqueIds st : reachable st -> uniqueIds st.
Proof.
  intros [rs <-].
  assert (forall s, uniqueIds s -> uniqueIds (serve rs s)) as Hserve.
  { induction rs as [|r rs IH]; intros s Hs; simpl; [exact Hs|].
    apply IH, handle_uniqueIds, Hs. }
  apply Hserve. apply NoDup_nil_2.
Qed.

(** ** The partial update *)

Lemma castUpdate_fields b u :
  castUpdate b = Resolved u ->
  set_title u = requested title_path (body_title b)
  /\ set_description u = requested description_path (body_description b)
  /\ set_status u = requested status_path (body_status b)
  /\ set_priority u = requested priority_path (body_priority b)
  /\ set_dueDate u
     = match body_dueDate b with Some (CastOk d) => Some d | _ => None end
  /\ set_user u
     = match body_user b with Some (CastOk o) => Some o | _ => None end.
Proof.
  unfold castUpdate.
  destruct (body_dueDate b) as [[d|raw]|], (body_user b) as [[o|raw']|];
    intros [= <-]; simpl;
    destruct (body_title b), (body_description b), (body_status b),
      (body_priority b); simpl; tauto.
Qed.

(** C8 as stated fails.  User 7 updates the own task 1 with a body that
    names the status alone: the answer is the task with the new status and
    with another [updatedAt], a field the body did not name.  And with the
    status "bogus" the update is refused: nothing is applied and no
    updated task is returned. *)
Lemma update_touches_unnamed_field :
  (exists t',
      updateTask Connected 300 storeX 7%N (CastOk 1%N) (statusOnly "completed")
      = ({| statusCode := 200; json := JsonTask t' |}, [t'])
      /\ status t' = Some "completed"
      /\ updatedAt t' <> updatedAt taskX)
  /\ updateTask Connected 300 storeX 7%N (CastOk 1%N) (statusOnly "bogus")
     = ({| statusCode := 400;
           json := JsonMessage "Error updating task"
                     (Some (MongooseValidationError [("status", VEnum)])) |},
        storeX).
Proof.
  split; [|reflexivity].
  eexists. split; [reflexivity|]. split; [reflexivity|]. discriminate.
Qed.

(** C8, amended: for every task owned by the caller (in a collection with
    pairwise distinct ids) and every body that passes the casts and the
    update validators, [updateTask] answers 200 with the updated task and
    stores it in the place of the old one; each path the body names takes
    the supplied value (trimmed for title and description), [updatedAt]
    becomes the time of the update, every other field of the task
    ([_id], [createdAt] and each path the body does not name) is
    unchanged, and so is every other task of the collection. *)
Theorem updateTask_partial_update (now : Time) (st : Store) (uid : ObjectId)
  (i : nat) (t : Task) (b : Body) :
  uniqueIds st ->
  st !! i = Some t ->
  user t = uid ->
  validForUpdate b ->
  exists t',
    updateTask Connected now st uid (CastOk (_id t)) b
    = ({| statusCode := 200; json := JsonTask t' |}, <[i := t']> st)
    /\ title t' = orKeep (requested title_path (body_title b)) (title t)
    /\ description t'
       = orKeep (requested description_path (body_description b)) (description t)
    /\ status t' = orKeep (body_status b) (status t)
    /\ priority t' = orKeep (body_priority b) (priority t)
    /\ dueDate t'
       = match body_dueDate b with
         | Some (CastOk d) => Some d
         | _ => dueDate t
         end
    /\ user t'
       = match body_user b with
         | Some (CastOk o) => o
         | _ => user t
         end
    /\ _id t' = _id t
    /\ createdAt t' = createdAt t
    /\ updatedAt t' = now
    /\ length (<[i := t']> st) = length st
    /\ (<[i := t']> st) !! i = Some t'
    /\ (forall j, j <> i -> (<[i := t']> st) !! j = st !! j).
Proof.
  intros Hunique Hi Hown (u & Hcast & Hvalid).
  exists (applyUpdate now u t).
  rewrite (updateTask_valid Connected now st uid (_id t) b u Hcast Hvalid).
  rewrite <- Hown, (list_find_owned st i t Hunique Hi).
  destruct (castUpdate_fields b u Hcast) as (Et & Ed & Es & Ep & Edue & Eu).
  split; [reflexivity|]. simpl. rewrite Et, Ed, Es, Ep, Edue, Eu.
  split; [reflexivity|]. split; [reflexivity|].
  split. { destruct (body_status b); reflexivity. }
  split. { destruct (body_priority b); reflexivity. }
  split. { destruct (body_dueDate b) as [[d|raw]|]; reflexivity. }
  split. { destruct (body_user b) as [[o|raw]|]; reflexivity. }
  split; [reflexivity|]. split; [reflexivity|]. split; [reflexivity|].
  split; [apply length_insert|]. split.
  - apply list_lookup_insert_eq. eapply lookup_lt_Some, Hi.
  - intros j Hj. apply list_lookup_insert_ne. congruence.
Qed.

Lemma updateTask_partial_update_witness :
  exists t',
    updateTask Connected 300 storeX 7%N (CastOk 1%N) (statusOnly "completed")
    = ({| statusCode := 200; json := JsonTask t' |}, [t'])
    /\ title t' = Some "X" /\ status t' = Some "completed"
    /\ createdAt t' = 100 /\ updatedAt t' = 300.
Proof.
  assert (uniqueIds storeX) as Hunique.
  { unfold uniqueIds, storeX. simpl. apply NoDup_singleton. }
  assert (validForUpdate (statusOnly "completed")) as Hvalid.
  { eexists. split; reflexivity. }
  destruct (updateTask_partial_update 300 storeX 7%N 0 taskX
              (statusOnly "completed") Hunique eq_refl eq_refl Hvalid)
    as (t' & Hupdate & Ht & _ & Hs & _ & _ & _ & _ & Hc & Hu & _).
  exists t'. split; [exact Hupdate|]. repeat split; assumption.
Defined.

(** ** Error responses *)

Lemma httpStatus_inj c1 c2 : httpStatus c1 = httpStatus c2 -> c1 = c2.
Proof. destruct c1, c2; simpl; intros H; try reflexivity; discriminate H. Qed.

Lemma failsWith_message c message error :
  failsWith c {| statusCode := httpStatus c; json := JsonMessage message error |}.
Proof. split; [reflexivity|]. simpl. eauto. Qed.

(** The statuses each controller can answer with. *)
Lemma handle_status r st :
  let resp := fst (handle r st) in
  match r with
  | GET_tasks _ _ => statusCode resp = 200%nat \/ failsWith ServerError resp
  | POST_tasks _ _ _ _ _ =>
      statusCode resp = 201%nat \/ failsWith ValidationError resp
  | PUT_tasks _ _ _ _ _ =>
      statusCode resp = 200%nat \/ failsWith NotFoundError resp
      \/ failsWith ValidationError resp
  | DELETE_tasks _ _ _ =>
      statusCode resp = 200%nat \/ failsWith NotFoundError resp
      \/ failsWith ServerError resp
  end.
Proof.
  destruct r as [conn uid | conn oid now uid b | conn now uid id b | conn uid id];
    simpl.
  - unfold getTasks. destruct (Task_find_sort conn st uid); simpl;
      [left; reflexivity|right; apply (failsWith_message ServerError)].
  - destruct (createTask_cases conn oid now st uid b)
      as [(_ & _ & _ & Heq) | (e & Heq & _)]; rewrite Heq; simpl;
      [left; reflexivity|right; apply (failsWith_message ValidationError)].
  - unfold updateTask.
    destruct (Task_findOneAndUpdate conn now st id uid b) as [[[t|]|e] st'];
      simpl.
    + left. reflexivity.
    + right. left. apply (failsWith_message NotFoundError).
    + right. right. apply (failsWith_message ValidationError).
  - unfold deleteTask.
    destruct (Task_findOneAndDelete conn st id uid) as [[[t|]|e] st'];
      simpl.
    + left. reflexivity.
    + right. left. apply (failsWith_message NotFoundError).
    + right. right. apply (failsWith_message ServerError).
Qed.

(** C7 as stated fails.  The body [{ title: "X" }] passes validation; when
    the store call then throws, [createTask] answers 400, the status of a
    validation error, not 500; [updateTask] does the same. *)
Lemma store_failure_answered_400 :
  ~ violatesSchema (titleOnly "X")
  /\ createTask (Failing "connection lost") 1%N 100 [] 7%N (titleOnly "X")
     = ({| statusCode := 400;
           json := JsonMessage "Error creating task"
                     (Some (MongoError "connection lost")) |}, [])
  /\ ~ failsWith ServerError
         (fst (createTask (Failing "connection lost") 1%N 100 [] 7%N
                 (titleOnly "X")))
  /\ updateTask (Failing "connection lost") 300 storeX 7%N (CastOk 1%N)
       (statusOnly "completed")
     = ({| statusCode := 400;
           json := JsonMessage "Error updating task"
                     (Some (MongoError "connection lost")) |}, storeX).
Proof.
  split; [|split; [reflexivity|split; [|reflexivity]]].
  - intros [Ht | [(d & [=] & _) | [(s & [=] & _) | [(p & [=] & _) | (raw & [=])]]]].
    simpl in Ht. destruct Ht as [Ht | Ht]; [discriminate Ht|vm_compute in Ht; lia].
  - intros [H _]. discriminate H.
Qed.

Section AuthProperties.

Variable hash : string -> string -> string.
Variable sign : ObjectId -> Time -> string.
Variable lifetime : Time.

Lemma login_fails_AuthError now e password users c :
  Auth.login hash sign lifetime now e password users = inl c -> c = AuthError.
Proof.
  unfold Auth.login.
  destruct (list_find (Auth.hasEmail e) users) as [[i u]|];
    [case_bool_decide|]; congruence.
Qed.

Lemma verify_fails_AuthError now header c :
  Auth.verify sign now header = inl c -> c = AuthError.
Proof.
  unfold Auth.verify.
  destruct header as [| raw | t]; [congruence..|].
  destruct (_ && _); congruence.
Qed.

End AuthProperties.

(** C7, amended: every error response of the task operations is a JSON
    message whose status is 400, 404 or 500, so that it falls in exactly
    one of the classes ValidationError, NotFoundError and ServerError (the
    statuses of the four classes are pairwise different, and no task
    operation answers 401).  [getTasks] fails only with 500, [createTask]
    only with 400, [updateTask] with 400 or 404, [deleteTask] with 404 or
    500.  A failure thrown by the store is answered 500 by [getTasks] and
    [deleteTask] and 400 by [createTask] and [updateTask].  The
    authentication operations [login] and [verify] fail with AuthError,
    whose status is 401. *)
Theorem error_responses_classified :
  (forall c1 c2, httpStatus c1 = httpStatus c2 -> c1 = c2)
  /\ (forall resp c1 c2, failsWith c1 resp -> failsWith c2 resp -> c1 = c2)
  /\ (forall r st,
        isError (fst (handle r st)) ->
        exists c,
          failsWith c (fst (handle r st)) /\ c <> AuthError
          /\ match r with
             | GET_tasks _ _ => c = ServerError
             | POST_tasks _ _ _ _ _ => c = ValidationError
             | PUT_tasks _ _ _ _ _ => c = ValidationError \/ c = NotFoundError
             | DELETE_tasks _ _ _ => c = NotFoundError \/ c = ServerError
             end)
  /\ (forall msg st uid,
        failsWith ServerError (fst (getTasks (Failing msg) st uid)))
  /\ (forall msg st uid oid,
        failsWith ServerError (fst (deleteTask (Failing msg) st uid (CastOk oid))))
  /\ (forall msg oid now st uid b,
        ~ violatesSchema b ->
        createTask (Failing msg) oid now st uid b
        = ({| statusCode := 400;
              json := JsonMessage "Error creating task" (Some (MongoError msg)) |},
           st))
  /\ (forall msg now st uid oid b,
        validForUpdate b ->
        updateTask (Failing msg) now st uid (CastOk oid) b
        = ({| statusCode := 400;
              json := JsonMessage "Error updating task" (Some (MongoError msg)) |},
           st))
  /\ (forall hash sign lifetime now e password users c,
        Auth.login hash sign lifetime now e password users = inl c ->
        c = AuthError /\ httpStatus c = 401%nat)
  /\ (forall sign now header c,
        Auth.verify sign now header = inl c ->
        c = AuthError /\ httpStatus c = 401%nat).
Proof.
  split; [exact httpStatus_inj|]. split.
  { intros resp c1 c2 [H1 _] [H2 _]. apply httpStatus_inj. congruence. }
  split.
  { intros r st Herr. pose proof (handle_status r st) as Hstatus.
    unfold isError in Herr. simpl in Hstatus.
    destruct r; simpl in *;
      repeat match goal with
        | H : _ \/ _ |- _ => destruct H as [H | H]
        | H : statusCode _ = _ |- _ => rewrite H in Herr; lia
        end;
      eexists; (split; [eassumption|]); split; try discriminate; auto. }
  split. { intros. apply (failsWith_message ServerError). }
  split. { intros. apply (failsWith_message ServerError). }
  split.
  { intros msg oid now st uid b Hvalid.
    apply (validForCreate_of_schema oid now uid) in Hvalid.
    unfold validForCreate in Hvalid. unfold createTask, Task_save.
    destruct (new_Task oid now uid b) as [t castErrors].
    simpl in Hvalid. rewrite Hvalid. reflexivity. }
  split.
  { intros msg now st uid oid b (u & Hcast & Hvalid).
    apply (updateTask_valid (Failing msg) now st uid oid b u Hcast Hvalid). }
  split.
  - intros hash sign lifetime now e password users c Hlogin.
    apply login_fails_AuthError in Hlogin. subst c. split; reflexivity.
  - intros sign now header c Hverify.
    apply verify_fails_AuthError in Hverify. subst c. split; reflexivity.
Qed.

Lemma error_responses_classified_witness :
  isError (fst (handle (DELETE_tasks Connected 8%N (CastOk 1%N)) storeX))
  /\ exists c,
       failsWith c (fst (handle (DELETE_tasks Connected 8%N (CastOk 1%N)) storeX))
       /\ c <> AuthError.
Proof.
  assert (isError (fst (handle (DELETE_tasks Connected 8%N (CastOk 1%N)) storeX)))
    as Herr by (unfold isError; simpl; lia).
  split; [exact Herr|].
  destruct error_responses_classified as (_ & _ & Hclass & _).
  destruct (Hclass (DELETE_tasks Connected 8%N (CastOk 1%N)) storeX Herr)
    as (c & Hfails & Hne & _).
  exists c. split; assumption.
Defined.

(** ** Registration *)

Section RegisterProperties.

Variable hash : string -> string -> string.
Variable sign : ObjectId -> Time -> string.
Variable lifetime : Time.

Let register := Auth.register hash sign lifetime.
Let registerCall := Auth.registerCall hash sign lifetime.
Let registerAll := Auth.registerAll hash sign lifetime.

Lemma register_taken oid s now e password users :
  Exists (Auth.hasEmail e) users ->
  register oid s now e password users = (None, users).
Proof.
  intros Hin. unfold register, Auth.register.
  rewrite bool_decide_eq_true_2 by exact Hin. reflexivity.
Qed.

Lemma register_succeeds oid s now e password users tok users' :
  register oid s now e password users = (Some tok, users') ->
  ~ Exists (Auth.hasEmail e) users
  /\ exists u, Auth.email u = e /\ users' = users ++ [u].
Proof.
  unfold register, Auth.register. case_bool_decide as Hin; [discriminate|].
  intros [= _ <-]. split; [exact Hin|]. eexists. split; [|reflexivity].
  reflexivity.
Qed.

Lemma recordsFor_fresh e users u :
  ~ Exists (Auth.hasEmail e) users -> Auth.email u = e ->
  Auth.recordsFor e (users ++ [u]) = [u].
Proof.
  intros Hnone Hu. unfold Auth.recordsFor. rewrite filter_app.
  assert (filter (Auth.hasEmail e) users = []) as ->.
  { clear -Hnone. induction users as [|x users IH]; [reflexivity|].
    rewrite filter_cons_False.
    - apply IH. intros H. apply Hnone. apply Exists_cons. auto.
    - intros H. apply Hnone. apply Exists_cons. auto. }
  simpl. rewrite filter_cons_True by exact Hu. reflexivity.
Qed.

(** Once an email is registered, a further registration, of this email or
    of another, neither adds nor removes a record for it. *)
Lemma registerCall_keeps e r users :
  Exists (Auth.hasEmail e) users ->
  Exists (Auth.hasEmail e) (snd (registerCall r users))
  /\ Auth.recordsFor e (snd (registerCall r users)) = Auth.recordsFor e users.
Proof.
  intros Hin. unfold registerCall, Auth.registerCall, Auth.register.
  case_bool_decide as Hr; simpl; [auto|].
  split; [apply Exists_app; auto|].
  unfold Auth.recordsFor. rewrite filter_app.
  rewrite filter_cons_False, filter_nil, app_nil_r; [reflexivity|].
  unfold Auth.hasEmail at 1. simpl. intros Heq. rewrite Heq in Hr.
  contradiction.
Qed.

Lemma registerAll_keeps e rs users :
  Exists (Auth.hasEmail e) users ->
  Exists (Auth.hasEmail e) (registerAll rs users)
  /\ Auth.recordsFor e (registerAll rs users) = Auth.recordsFor e users.
Proof.
  revert users. induction rs as [|r rs IH]; intros users Hin; simpl; [auto|].
  destruct (registerCall_keeps e r users Hin) as [Hin' Hrec].
  destruct (IH _ Hin') as [Hin'' Hrec'']. split; [exact Hin''|].
  exact (eq_trans Hrec'' Hrec).
Qed.

(** C9: when [register] succeeds for an email, every later [register] for
    the same email fails, whatever the passwords and whatever
    registrations came in between, it leaves the credential store as it
    is, and the store holds exactly one user record for that email. *)
Theorem register_same_email_twice (oid1 : ObjectId) (s1 : string)
  (now1 : Time) (e p1 : string) (users : list Auth.User) (tok : Auth.Token)
  (users' : list Auth.User) (between : list Auth.Registration)
  (oid2 : ObjectId) (s2 : string) (now2 : Time) (p2 : string) :
  Auth.register hash sign lifetime oid1 s1 now1 e p1 users = (Some tok, users') ->
  let users'' := Auth.registerAll hash sign lifetime between users' in
  Auth.register hash sign lifetime oid2 s2 now2 e p2 users'' = (None, users'')
  /\ length (Auth.recordsFor e users'') = 1%nat
  /\ length (Auth.recordsFor e users') = 1%nat.
Proof.
  intros Hfirst users''.
  destruct (register_succeeds _ _ _ _ _ _ _ _ Hfirst) as (Hnone & u & Hu & ->).
  assert (Exists (Auth.hasEmail e) (users ++ [u])) as Hin.
  { apply Exists_app. right. apply Exists_cons. left. exact Hu. }
  destruct (registerAll_keeps e between _ Hin) as [Hin'' Hrec].
  split; [apply register_taken; exact Hin''|].
  subst users''. fold registerAll. rewrite Hrec.
  rewrite (recordsFor_fresh e users u Hnone Hu). split; reflexivity.
Qed.

End RegisterProperties.

Lemma register_same_email_twice_witness :
  exists tok users',
    Auth.register sampleHash sampleSign 3600 1%N "s1" 10 "ann@example.org" "pw1" []
    = (Some tok, users')
    /\ Auth.register sampleHash sampleSign 3600 2%N "s2" 20 "ann@example.org"
         "pw2" users'
       = (None, users')
    /\ length (Auth.recordsFor "ann@example.org" users') = 1%nat.
Proof.
  eexists. eexists. split; [reflexivity|].
  destruct (register_same_email_twice sampleHash sampleSign 3600 1%N "s1" 10
              "ann@example.org" "pw1" [] _ _ [] 2%N "s2" 20 "pw2" eq_refl)
    as (Hsecond & Hone & _).
  split; [exact Hsecond|exact Hone].
Defined.

(** ** The client list *)

Lemma newestFirst_map (f : Task -> Task) (l : list Task) :
  newestFirst l ->
  (forall t, t ∈ l -> createdAt (f t) = createdAt t) ->
  newestFirst (map f l).
Proof.
  unfold newestFirst. intros Hsorted. induction Hsorted as [|a l Hl IH Ha];
    intros Hf; simpl; constructor.
  - apply IH. intros t Ht. apply Hf. apply list_elem_of_further, Ht.
  - apply Forall_forall. intros y Hy.
    apply list_elem_of_fmap in Hy as (t & -> & Ht).
    rewrite Forall_forall in Ha. specialize (Ha t Ht).
    unfold newerFirst in *.
    rewrite (Hf a) by apply list_elem_of_here.
    rewrite (Hf t) by (apply list_elem_of_further, Ht). exact Ha.
Qed.

(** What the server answers fits what the client assumes: the created
    task carries the time of its creation, and an update never changes
    [createdAt] nor [_id]. *)
Lemma server_answers_fit now st uid oid b resp st' :
  (createTask Connected oid now st uid b = (resp, st') ->
   forall data, axiosTask resp = Some data ->
     createdAt data = now /\ _id data = oid)
  /\ (forall id, updateTask Connected now st uid id b = (resp, st') ->
      forall data, axiosTask resp = Some data ->
        exists t, t ∈ st /\ _id data = _id t /\ createdAt data = createdAt t
                  /\ id = CastOk (_id t)).
Proof.
  split.
  - intros Hcreate data Hdata.
    destruct (createTask_cases Connected oid now st uid b)
      as [(_ & _ & _ & Heq) | (e & Heq & _)];
      rewrite Heq in Hcreate; injection Hcreate as <- <-;
      unfold axiosTask in Hdata; simpl in Hdata; [|discriminate].
    injection Hdata as <-.
    destruct (new_Task_fields oid now uid b) as (? & ? & ? & _). auto.
  - intros id. unfold updateTask, Task_findOneAndUpdate.
    destruct id as [o|raw]; [|intros [= <- <-] data [=]].
    destruct (castUpdate b) as [u|e]; [|intros [= <- <-] data [=]].
    destruct (validateUpdate u); [|intros [= <- <-] data [=]].
    destruct (list_find (matches o uid) st) as [[i t]|] eqn:Hfind;
      [|intros [= <- <-] data [=]].
    apply list_find_matches in Hfind as (Hi & Hid & _).
    intros [= <- <-] data. unfold axiosTask. simpl. intros [= <-].
    exists t. split; [eapply list_elem_of_lookup_2, Hi|].
    simpl. rewrite Hid. auto.
Qed.

(** * Further properties *)

(** ** Trimming *)

Lemma rev_app_list s acc :
  list_ascii_of_string (String.rev_app s acc)
  = reverse (list_ascii_of_string s) ++ list_ascii_of_string acc.
Proof.
  revert acc. induction s as [|a s IH]; intros acc; simpl; [reflexivity|].
  rewrite IH, reverse_cons, <- app_assoc. reflexivity.
Qed.

Lemma rev_list s :
  list_ascii_of_string (String.rev s) = reverse (list_ascii_of_string s).
Proof. unfold String.rev. rewrite rev_app_list. simpl. apply app_nil_r. Qed.

Lemma string_of_list_inj s1 s2 :
  list_ascii_of_string s1 = list_ascii_of_string s2 -> s1 = s2.
Proof.
  intros H. rewrite <- (string_of_list_ascii_of_string s1),
    <- (string_of_list_ascii_of_string s2), H. reflexivity.
Qed.

Lemma rev_involutive s : String.rev (String.rev s) = s.
Proof.
  apply string_of_list_inj. rewrite !rev_list. apply reverse_involutive.
Qed.

Lemma length_list s : String.length s = length (list_ascii_of_string s).
Proof. induction s as [|a s IH]; simpl; congruence. Qed.

Lemma rev_length s : String.length (String.rev s) = String.length s.
Proof. rewrite !length_list, rev_list. apply length_reverse. Qed.

Lemma trimStart_clean s : noLeadingSpace (trimStart s).
Proof.
  induction s as [|c s IH]; simpl; [exact I|].
  destruct (isWhiteSpace c) eqn:Hc; [exact IH|exact Hc].
Qed.

Lemma trimStart_id s : noLeadingSpace s -> trimStart s = s.
Proof. destruct s as [|c s]; simpl; [reflexivity|]. intros ->. reflexivity. Qed.

Lemma trimStart_suffix s :
  exists w, list_ascii_of_string s = w ++ list_ascii_of_string (trimStart s).
Proof.
  induction s as [|c s [w IH]]; simpl; [exists []; reflexivity|].
  destruct (isWhiteSpace c).
  - exists (c :: w). simpl. rewrite IH. reflexivity.
  - exists []. reflexivity.
Qed.

Lemma trimEnd_prefix s :
  exists z, list_ascii_of_string s = list_ascii_of_string (trimEnd s) ++ z.
Proof.
  destruct (trimStart_suffix (String.rev s)) as [w Hw].
  exists (reverse w). unfold trimEnd. rewrite rev_list.
  rewrite <- reverse_app, <- Hw, rev_list. symmetry. apply reverse_involutive.
Qed.

Lemma trimEnd_clean s : noTrailingSpace (trimEnd s).
Proof.
  unfold noTrailingSpace, trimEnd. rewrite rev_involutive.
  apply trimStart_clean.
Qed.

Lemma trimEnd_keeps_start s : noLeadingSpace s -> noLeadingSpace (trimEnd s).
Proof.
  intros Hs. destruct (trimEnd_prefix s) as [z Hz].
  destruct (trimEnd s) as [|c r]; [exact I|].
  destruct s as [|c' s']; simpl in Hz; [discriminate|].
  injection Hz as -> _. exact Hs.
Qed.

Lemma trim_clean s : noLeadingSpace (trim s) /\ noTrailingSpace (trim s).
Proof.
  unfold trim. split.
  - apply trimEnd_keeps_start, trimStart_clean.
  - apply trimEnd_clean.
Qed.

Lemma trim_id s : noLeadingSpace s -> noTrailingSpace s -> trim s = s.
Proof.
  intros Hstart Hend. unfold trim. rewrite (trimStart_id s Hstart).
  unfold trimEnd. rewrite (trimStart_id _ Hend). apply rev_involutive.
Qed.

Lemma trim_length s : (String.length (trim s) <= String.length s)%nat.
Proof.
  unfold trim. destruct (trimEnd_prefix (trimStart s)) as [z Hz].
  destruct (trimStart_suffix s) as [w Hw].
  rewrite !length_list, Hw, Hz, !length_app. lia.
Qed.

(** ** Stored tasks satisfy the schema *)

Lemma title_value_valid s :
  validateValue title_path (trim s) = []
  <-> trim s <> EmptyString /\ (String.length (trim s) <= 100)%nat.
Proof.
  change (validateValue title_path (trim s))
    with (validateString title_path (castString title_path (Some s))).
  rewrite title_valid. split.
  - intros (s' & [= <-] & H). exact H.
  - intros H. exists s. auto.
Qed.

Lemma description_value_valid d :
  validateValue description_path (trim d) = []
  <-> (String.length (trim d) <= 500)%nat.
Proof.
  change (validateValue description_path (trim d))
    with (validateString description_path
            (castString description_path (Some d))).
  rewrite description_valid. split.
  - intros H. apply H. reflexivity.
  - intros H d' [= <-]. exact H.
Qed.

Lemma new_Task_storedOk oid now uid b :
  validForCreate oid now uid b -> storedOk (fst (new_Task oid now uid b)).
Proof.
  intros Hvalid. pose proof (new_Task_enumsOk oid now uid b Hvalid) as Henums.
  apply validForCreate_spec in Hvalid
    as ((s & Hs & Hne & Hlen) & Hdesc & _).
  destruct (new_Task_fields oid now uid b)
    as (_ & _ & _ & _ & Et & Ed & _).
  split; [|split; [|exact Henums]].
  - exists (trim s). rewrite Et, Hs. simpl.
    split; [reflexivity|]. split; [exact Hne|]. split; [exact Hlen|].
    apply trim_clean.
  - intros d. rewrite Ed. destruct (body_description b) as [d0|]; simpl;
      [|discriminate].
    intros [= <-]. split; [apply Hdesc; reflexivity|apply trim_clean].
Qed.

Lemma applyUpdate_storedOk now b u t :
  castUpdate b = Resolved u -> validateUpdate u = [] ->
  storedOk t -> storedOk (applyUpdate now u t).
Proof.
  intros Hcast Hvalid (Htitle & Hdesc & Henums).
  pose proof (applyUpdate_enumsOk now u t Hvalid Henums) as Henums'.
  apply validateUpdate_nil in Hvalid as (Ht & Hd & _).
  destruct (castUpdate_fields b u Hcast) as (Et & Ed & _).
  split; [|split; [|exact Henums']]; simpl.
  - rewrite Et in *. destruct (body_title b) as [s|]; simpl in *;
      [|exact Htitle].
    apply title_value_valid in Ht as [Hne Hlen].
    exists (trim s). split; [reflexivity|]. split; [exact Hne|].
    split; [exact Hlen|]. apply trim_clean.
  - rewrite Ed in *. destruct (body_description b) as [d0|]; simpl in *;
      [|exact Hdesc].
    apply description_value_valid in Hd.
    intros d [= <-]. split; [exact Hd|apply trim_clean].
Qed.

Lemma handle_storedOk r st :
  Forall storedOk st -> Forall storedOk (snd (handle r st)).
Proof.
  intros Hst.
  destruct r as [conn uid | conn oid now uid b | conn now uid id b | conn uid id];
    simpl.
  - unfold getTasks. destruct (Task_find_sort conn st uid); exact Hst.
  - destruct (createTask_cases conn oid now st uid b)
      as [(Hvalid & _ & _ & Heq) | (e & Heq & _)]; rewrite Heq; simpl.
    + apply Forall_app. split; [exact Hst|].
      apply Forall_singleton. apply new_Task_storedOk, Hvalid.
    + exact Hst.
  - unfold updateTask, Task_findOneAndUpdate.
    destruct id as [oid | raw]; [|exact Hst].
    destruct (castUpdate b) as [u | e] eqn:Hcast; [|exact Hst].
    destruct (validateUpdate u) eqn:Hvalid; [|exact Hst].
    destruct conn; [|exact Hst].
    destruct (list_find (matches oid uid) st) as [[i t]|] eqn:Hfind;
      [|exact Hst].
    apply list_find_matches in Hfind as (Hi & _ & _).
    simpl. apply Forall_insert; [exact Hst|].
    apply (applyUpdate_storedOk now b u t Hcast Hvalid).
    eapply Forall_lookup_1; eauto.
  - unfold deleteTask, Task_findOneAndDelete.
    destruct id as [oid | raw]; [|exact Hst].
    destruct conn; [|exact Hst].
    destruct (list_find (matches oid uid) st) as [[i t]|]; [|exact Hst].
    simpl. apply Forall_delete, Hst.
Qed.

Lemma reachable_storedOk st : reachable st -> Forall storedOk st.
Proof.
  intros [rs <-].
  assert (forall s, Forall storedOk s -> Forall storedOk (serve rs s)) as Hserve.
  { induction rs as [|r rs IH]; intros s Hs; simpl; [exact Hs|].
    apply IH, handle_storedOk, Hs. }
  apply Hserve. constructor.
Qed.

(** X1: in every collection the service can reach from the empty one,
    every task has a title that is not empty, has at most 100 characters
    and neither starts nor ends with white space; a description, when
    there is one, of at most 500 characters without white space around
    it; and a status and a priority of their enums.  What the validators
    of [save] and the update validators check on the way in therefore
    holds of everything that is stored. *)
Theorem stored_tasks_satisfy_schema (st : Store) :
  reachable st ->
  forall t, t ∈ st ->
    (exists s, title t = Some s /\ s <> EmptyString
               /\ (String.length s <= 100)%nat
               /\ noLeadingSpace s /\ noTrailingSpace s /\ trim s = s)
    /\ (forall d, description t = Some d ->
          (String.length d <= 500)%nat /\ trim d = d)
    /\ (exists s, status t = Some s /\ s ∈ status_enum)
    /\ (exists p, priority t = Some p /\ p ∈ priority_enum).
Proof.
  intros Hreach t Hin.
  pose proof (reachable_storedOk st Hreach) as Hserve.
  rewrite Forall_forall in Hserve.
  destruct (Hserve t Hin) as ((s & Hs & Hne & Hlen & Hl & Hr) & Hdesc & Hst & Hp).
  split; [|split; [|split; assumption]].
  - exists s. repeat split; try assumption. apply trim_id; assumption.
  - intros d Hd. destruct (Hdesc d Hd) as (Hdl & Hdl' & Hdr).
    split; [exact Hdl|apply trim_id; assumption].
Qed.

Lemma stored_tasks_satisfy_schema_witness :
  reachable storeX
  /\ exists s, title taskX = Some s /\ s <> EmptyString /\ trim s = s.
Proof.
  assert (reachable storeX) as Hr.
  { exists [POST_tasks Connected 1%N 100 7%N (titleOnly "X")]. reflexivity. }
  split; [exact Hr|].
  destruct (stored_tasks_satisfy_schema storeX Hr taskX (list_elem_of_here _ _))
    as ((s & Hs & Hne & _ & _ & _ & Htrim) & _).
  exists s. auto.
Defined.

(** ** The effect of a request on the collection, by its outcome *)

(** X2: a request that is answered with an error (status 400 or more)
    leaves the collection as it was, and so does every [getTasks].  A
    creation answered 201 appends exactly one task and keeps all others
    where they were; an update answered 200 keeps the number of tasks; a
    deletion answered 200 removes exactly one task. *)
Theorem request_effect_by_outcome (r : Request) (st : Store) :
  (isError (fst (handle r st)) -> snd (handle r st) = st)
  /\ match r with
     | GET_tasks _ _ => snd (handle r st) = st
     | POST_tasks _ _ _ _ _ =>
         statusCode (fst (handle r st)) = 201%nat ->
         exists t, json (fst (handle r st)) = JsonTask t
                   /\ snd (handle r st) = st ++ [t]
     | PUT_tasks _ _ _ _ _ =>
         statusCode (fst (handle r st)) = 200%nat ->
         length (snd (handle r st)) = length st
     | DELETE_tasks _ _ _ =>
         statusCode (fst (handle r st)) = 200%nat ->
         S (length (snd (handle r st))) = length st
     end.
Proof.
  unfold isError.
  destruct r as [conn uid | conn oid now uid b | conn now uid id b | conn uid id];
    simpl.
  - unfold getTasks. destruct (Task_find_sort conn st uid); simpl; auto.
  - destruct (createTask_cases conn oid now st uid b)
      as [(_ & _ & _ & Heq) | (e & Heq & _)]; rewrite Heq; simpl.
    + split; [lia|]. intros _. eauto.
    + split; [reflexivity|]. discriminate.
  - unfold updateTask, Task_findOneAndUpdate.
    destruct id as [oid | raw]; [|simpl; split; [reflexivity|discriminate]].
    destruct (castUpdate b) as [u | e];
      [|simpl; split; [reflexivity|discriminate]].
    destruct (validateUpdate u); [|simpl; split; [reflexivity|discriminate]].
    destruct conn; [|simpl; split; [reflexivity|discriminate]].
    destruct (list_find (matches oid uid) st) as [[i t]|]; simpl.
    + split; [lia|]. intros _. apply length_insert.
    + split; [reflexivity|discriminate].
  - unfold deleteTask, Task_findOneAndDelete.
    destruct id as [oid | raw]; [|simpl; split; [reflexivity|discriminate]].
    destruct conn; [|simpl; split; [reflexivity|discriminate]].
    destruct (list_find (matches oid uid) st) as [[i t]|] eqn:Hfind; simpl.
    + split; [lia|]. intros _.
      apply list_find_matches in Hfind as (Hi & _).
      rewrite length_delete by (eexists; exact Hi).
      apply lookup_lt_Some in Hi. lia.
    + split; [reflexivity|discriminate].
Qed.

Lemma request_effect_by_outcome_witness :
  isError (fst (handle (PUT_tasks Connected 300 7%N (CastOk 1%N)
                         (statusOnly "bogus")) storeX))
  /\ snd (handle (PUT_tasks Connected 300 7%N (CastOk 1%N)
                   (statusOnly "bogus")) storeX) = storeX.
Proof.
  assert (isError (fst (handle (PUT_tasks Connected 300 7%N (CastOk 1%N)
                                  (statusOnly "bogus")) storeX))) as Herr
    by (unfold isError; simpl; lia).
  split; [exact Herr|].
  exact (proj1 (request_effect_by_outcome _ storeX) Herr).
Defined.

(** ** Identifiers stay unique *)

(** X3: the [_id]s of every collection the service can reach are
    pairwise distinct; a creation whose [_id] is already stored is
    refused with status 400 and changes nothing, whatever its body. *)
Theorem ids_stay_unique :
  (forall st, reachable st -> NoDup (_id <$> st))
  /\ (forall conn oid now st uid b,
        Exists (fun t => _id t = oid) st ->
        failsWith ValidationError (fst (createTask conn oid now st uid b))
        /\ snd (createTask conn oid now st uid b) = st).
Proof.
  split; [exact reachable_uniqueIds|].
  intros conn oid now st uid b Hdup.
  destruct (createTask_cases conn oid now st uid b)
    as [(_ & _ & Hfresh & _) | (e & Heq & _)].
  - contradiction.
  - rewrite Heq. split; [apply (failsWith_message ValidationError)|reflexivity].
Qed.

Lemma ids_stay_unique_witness :
  Exists (fun t => _id t = 1%N) storeX
  /\ snd (createTask Connected 1%N 200 storeX 8%N (titleOnly "Z")) = storeX.
Proof.
  assert (Exists (fun t => _id t = 1%N) storeX) as Hdup
    by (apply Exists_cons; left; reflexivity).
  split; [exact Hdup|].
  exact (proj2 (proj2 ids_stay_unique Connected 1%N 200 storeX 8%N
                  (titleOnly "Z") Hdup)).
Defined.

(** ** Deleting *)

Lemma filter_all (P : Task -> Prop) `{forall x, Decision (P x)} (l : list Task) :
  Forall P l -> filter P l = l.
Proof.
  induction 1 as [|x l Hx Hl IH]; [reflexivity|].
  rewrite filter_cons_True by exact Hx. rewrite IH. reflexivity.
Qed.

Lemma filter_delete_unique (st : Store) i t :
  uniqueIds st -> st !! i = Some t ->
  filter (fun x => _id x <> _id t) st = delete i st.
Proof.
  unfold uniqueIds. revert i. induction st as [|x st IH]; intros i Hnodup Hi;
    [discriminate|].
  simpl in Hnodup. apply NoDup_cons in Hnodup as [Hx Hnodup].
  destruct i as [|i]; simpl in *.
  - injection Hi as ->. rewrite filter_cons_False by (intros H; apply H; reflexivity).
    apply filter_all. apply Forall_forall. intros y Hy Heq.
    apply Hx. rewrite <- Heq. apply list_elem_of_fmap_2, Hy.
  - rewrite filter_cons_True.
    + rewrite (IH i Hnodup Hi). reflexivity.
    + intros Heq. apply Hx. rewrite Heq.
      apply list_elem_of_fmap_2. eapply list_elem_of_lookup_2, Hi.
Qed.

Lemma deleted_id_gone (st : Store) i t uid :
  uniqueIds st -> st !! i = Some t ->
  ~ Exists (matches (_id t) uid) (delete i st).
Proof.
  intros Hunique Hi. rewrite <- (filter_delete_unique st i t Hunique Hi).
  intros (x & Hx & [Hid _])%Exists_exists.
  apply list_elem_of_filter in Hx as [Hne _]. contradiction.
Qed.

(** X4: deleting a task of the caller (in a collection with pairwise
    distinct ids) answers 200 "Task deleted successfully" and removes this
    task and no other: the collection afterwards is the one before
    without the tasks of that [_id], in the same order, and every task of
    another [_id] is still there. *)
Theorem deleteTask_removes_owned (st : Store) (uid : ObjectId) (i : nat)
  (t : Task) :
  uniqueIds st ->
  st !! i = Some t ->
  user t = uid ->
  deleteTask Connected st uid (CastOk (_id t))
  = ({| statusCode := 200;
        json := JsonMessage "Task deleted successfully" None |},
     filter (fun x => _id x <> _id t) st)
  /\ S (length (filter (fun x => _id x <> _id t) st)) = length st
  /\ (forall x, x ∈ st -> _id x <> _id t ->
        x ∈ snd (deleteTask Connected st uid (CastOk (_id t))))
  /\ (forall x, x ∈ snd (deleteTask Connected st uid (CastOk (_id t))) ->
        x ∈ st /\ _id x <> _id t).
Proof.
  intros Hunique Hi Hown.
  rewrite deleteTask_connected.
  rewrite <- Hown, (list_find_owned st i t Hunique Hi).
  rewrite (filter_delete_unique st i t Hunique Hi). simpl.
  split; [reflexivity|]. split.
  { rewrite length_delete by (eexists; exact Hi).
    apply lookup_lt_Some in Hi. lia. }
  rewrite <- (filter_delete_unique st i t Hunique Hi). split.
  - intros x Hx Hne. apply list_elem_of_filter. auto.
  - intros x [Hne Hx]%list_elem_of_filter. auto.
Qed.

Lemma deleteTask_removes_owned_witness :
  deleteTask Connected [taskX; taskY] 7%N (CastOk 1%N)
  = ({| statusCode := 200;
        json := JsonMessage "Task deleted successfully" None |}, [taskY]).
Proof.
  assert (uniqueIds [taskX; taskY]) as Hunique.
  { unfold uniqueIds. simpl. apply NoDup_cons. split.
    - intros H%list_elem_of_singleton. discriminate H.
    - apply NoDup_singleton. }
  exact (proj1 (deleteTask_removes_owned [taskX; taskY] 7%N 0 taskX
                  Hunique eq_refl eq_refl)).
Defined.

(** X5: once a task is deleted, its identifier is dead for its former
    owner: a second deletion answers 404, an update with a valid body
    answers 404, neither changes the collection, and [getTasks] lists no
    task with that [_id]. *)
Theorem deleted_task_is_gone (st : Store) (uid : ObjectId) (i : nat)
  (t : Task) (resp : Response) (st' : Store) :
  uniqueIds st ->
  st !! i = Some t ->
  user t = uid ->
  deleteTask Connected st uid (CastOk (_id t)) = (resp, st') ->
  deleteTask Connected st' uid (CastOk (_id t))
  = ({| statusCode := 404; json := JsonMessage "Task not found" None |}, st')
  /\ (forall now b, validForUpdate b ->
        updateTask Connected now st' uid (CastOk (_id t)) b
        = ({| statusCode := 404; json := JsonMessage "Task not found" None |},
           st'))
  /\ (exists tasks,
        getTasks Connected st' uid
        = ({| statusCode := 200; json := JsonTasks tasks |}, st')
        /\ forall x, x ∈ tasks -> _id x <> _id t).
Proof.
  intros Hunique Hi Hown Hdelete.
  rewrite deleteTask_connected in Hdelete.
  rewrite <- Hown, (list_find_owned st i t Hunique Hi) in Hdelete.
  injection Hdelete as _ <-.
  pose proof (deleted_id_gone st i t uid Hunique Hi) as Hgone.
  apply list_find_matches_None in Hgone.
  split; [|split].
  - rewrite deleteTask_connected, Hgone. reflexivity.
  - intros now b (u & Hcast & Hvalid).
    rewrite (updateTask_valid Connected now _ uid (_id t) b u Hcast Hvalid), Hgone.
    reflexivity.
  - eexists. split; [reflexivity|].
    intros x [Hx _]%elem_of_listed.
    rewrite <- (filter_delete_unique st i t Hunique Hi) in Hx.
    apply list_elem_of_filter in Hx as [Hne _]. exact Hne.
Qed.

Lemma deleted_task_is_gone_witness :
  deleteTask Connected [taskY] 7%N (CastOk 1%N)
  = ({| statusCode := 404; json := JsonMessage "Task not found" None |}, [taskY]).
Proof.
  assert (uniqueIds [taskX; taskY]) as Hunique.
  { unfold uniqueIds. simpl. apply NoDup_cons. split.
    - intros H%list_elem_of_singleton. discriminate H.
    - apply NoDup_singleton. }
  exact (proj1 (deleted_task_is_gone [taskX; taskY] 7%N 0 taskX _ [taskY]
                  Hunique eq_refl eq_refl eq_refl)).
Defined.

(** X6: creating a task and then deleting it, by the same user, gives
    the collection back as it was. *)
Theorem create_then_delete_restores (conn : Connection) (oid : ObjectId)
  (now : Time) (st : Store) (uid : ObjectId) (b : Body) (resp : Response)
  (st' : Store) :
  createTask conn oid now st uid b = (resp, st') ->
  statusCode resp = 201%nat ->
  deleteTask Connected st' uid (CastOk oid)
  = ({| statusCode := 200;
        json := JsonMessage "Task deleted successfully" None |}, st).
Proof.
  intros Hcreate Hstatus.
  destruct (createTask_created _ _ _ _ _ _ _ _ Hcreate Hstatus)
    as (_ & _ & Hfresh & _ & ->).
  destruct (new_Task_fields oid now uid b) as (Hid & Huser & _).
  set (t := fst (new_Task oid now uid b)) in *.
  rewrite deleteTask_connected.
  assert (list_find (matches oid uid) (st ++ [t]) = Some (length st, t)) as ->.
  { apply list_find_Some. split; [|split].
    - rewrite lookup_app_r by lia. rewrite Nat.sub_diag. reflexivity.
    - split; assumption.
    - intros j y Hj Hlt [Hy _]. apply Hfresh, Exists_exists. exists y.
      split; [|exact Hy]. rewrite lookup_app_l in Hj by exact Hlt.
      eapply list_elem_of_lookup_2, Hj. }
  rewrite (delete_middle st [] t), app_nil_r. reflexivity.
Qed.

Lemma create_then_delete_restores_witness :
  deleteTask Connected storeX 7%N (CastOk 1%N)
  = ({| statusCode := 200;
        json := JsonMessage "Task deleted successfully" None |}, []).
Proof.
  exact (create_then_delete_restores Connected 1%N 100 [] 7%N (titleOnly "X")
           {| statusCode := 201; json := JsonTask taskX |} storeX
           eq_refl eq_refl).
Defined.

(** ** Updating again, and handing a task over *)

Lemma list_find_insert_same (P : Task -> Prop) `{forall x, Decision (P x)}
  (st : Store) i t t' :
  list_find P st = Some (i, t) -> P t' ->
  list_find P (<[i := t']> st) = Some (i, t').
Proof.
  intros (Hi & _ & Hleast)%list_find_Some Ht'.
  apply list_find_Some. split; [|split; [exact Ht'|]].
  - apply list_lookup_insert_eq. eapply lookup_lt_Some, Hi.
  - intros j y Hj Hlt. rewrite list_lookup_insert_ne in Hj by lia.
    eapply Hleast; eauto.
Qed.

Lemma orKeep_twice {A} (new old : option A) :
  orKeep new (orKeep new old) = orKeep new old.
Proof. destruct new; reflexivity. Qed.

Lemma applyUpdate_twice now now2 u t :
  applyUpdate now2 u (applyUpdate now u t) = touched now2 (applyUpdate now u t).
Proof.
  unfold applyUpdate, touched. simpl. rewrite !orKeep_twice.
  destruct (set_user u); reflexivity.
Qed.

Lemma updateTask_updated conn now st uid id b resp st' :
  updateTask conn now st uid id b = (resp, st') ->
  statusCode resp = 200%nat ->
  exists oid u i t,
    id = CastOk oid /\ conn = Connected
    /\ castUpdate b = Resolved u /\ validateUpdate u = []
    /\ list_find (matches oid uid) st = Some (i, t)
    /\ resp = {| statusCode := 200; json := JsonTask (applyUpdate now u t) |}
    /\ st' = <[i := applyUpdate now u t]> st.
Proof.
  unfold updateTask, Task_findOneAndUpdate.
  destruct id as [oid | raw]; [|intros [= <- <-]; discriminate].
  destruct (castUpdate b) as [u | e]; [|intros [= <- <-]; discriminate].
  destruct (validateUpdate u) eqn:Hvalid; [|intros [= <- <-]; discriminate].
  destruct conn; [|intros [= <- <-]; discriminate].
  destruct (list_find (matches oid uid) st) as [[i t]|] eqn:Hfind;
    [|intros [= <- <-]; discriminate].
  intros [= <- <-] _. exists oid, u, i, t. auto 10.
Qed.

(** X7: an update that succeeded and did not hand the task to another
    user can be sent again: the second answer is 200 with the same task,
    only [updatedAt] moved to the time of the second update, and nothing
    else in the collection changes. *)
Theorem update_again_only_touches (conn : Connection) (now : Time)
  (st : Store) (uid : ObjectId) (id : Cast ObjectId) (b : Body)
  (t' : Task) (st' : Store) (now2 : Time) :
  updateTask conn now st uid id b
  = ({| statusCode := 200; json := JsonTask t' |}, st') ->
  newOwner b = None \/ newOwner b = Some uid ->
  exists i,
    st' !! i = Some t'
    /\ updateTask Connected now2 st' uid id b
       = ({| statusCode := 200; json := JsonTask (touched now2 t') |},
          <[i := touched now2 t']> st').
Proof.
  intros Hupdate Hkeep.
  destruct (updateTask_updated _ _ _ _ _ _ _ _ Hupdate eq_refl)
    as (oid & u & i & t & -> & -> & Hcast & Hvalid & Hfind & [= ->] & ->).
  exists i. split.
  { apply list_lookup_insert_eq.
    apply list_find_matches in Hfind as (Hi & _). eapply lookup_lt_Some, Hi. }
  rewrite (updateTask_valid Connected now2 _ uid oid b u Hcast Hvalid).
  assert (matches oid uid (applyUpdate now u t)) as Hmatch.
  { pose proof Hfind as (_ & Hid & Hown)%list_find_matches.
    split; [exact Hid|]. unfold ownedBy. simpl.
    destruct (castUpdate_fields b u Hcast) as (_ & _ & _ & _ & _ & Eu).
    unfold newOwner in Hkeep. rewrite Eu.
    destruct (body_user b) as [[v|raw]|]; simpl; try exact Hown.
    destruct Hkeep as [Hk|Hk]; [discriminate Hk|]. congruence. }
  rewrite (list_find_insert_same _ st i t _ Hfind Hmatch).
  rewrite applyUpdate_twice, list_insert_insert_eq. reflexivity.
Qed.

Lemma update_again_only_touches_witness :
  exists i t',
    [t'] !! i = Some t'
    /\ updateTask Connected 400 [t'] 7%N (CastOk 1%N) (statusOnly "completed")
       = ({| statusCode := 200; json := JsonTask (touched 400 t') |},
          <[i := touched 400 t']> [t']).
Proof.
  destruct (update_again_only_touches Connected 300 storeX 7%N (CastOk 1%N)
              (statusOnly "completed") _ _ 400 eq_refl (or_introl eq_refl))
    as (i & Hi & Hagain).
  exists i. eexists. split; [exact Hi|exact Hagain].
Defined.

Lemma filter_insert_other (P : Task -> Prop) `{forall x, Decision (P x)}
  (st : Store) i t t' :
  st !! i = Some t -> ~ P t -> ~ P t' ->
  filter P (<[i := t']> st) = filter P st.
Proof.
  intros Hi Ht Ht'.
  rewrite insert_take_drop by (eapply lookup_lt_Some, Hi).
  rewrite <- (take_drop_middle st i t Hi) at 3.
  rewrite !filter_app, !filter_cons_False by assumption. reflexivity.
Qed.

Lemma filter_delete_other (P : Task -> Prop) `{forall x, Decision (P x)}
  (st : Store) i t :
  st !! i = Some t -> ~ P t -> filter P (delete i st) = filter P st.
Proof.
  intros Hi Ht. rewrite delete_take_drop.
  rewrite <- (take_drop_middle st i t Hi) at 3.
  rewrite !filter_app, filter_cons_False by assumption. reflexivity.
Qed.

Lemma applyUpdate_user now b u t :
  castUpdate b = Resolved u ->
  user (applyUpdate now u t) = default (user t) (newOwner b).
Proof.
  intros Hcast. destruct (castUpdate_fields b u Hcast) as (_ & _ & _ & _ & _ & Eu).
  simpl. rewrite Eu. unfold newOwner.
  destruct (body_user b) as [[v|raw]|]; reflexivity.
Qed.

(** X8: a request of one user leaves the tasks of every other user [v]
    alone, unless it is an update that hands a task over to [v]: the
    tasks of [v] in the collection are the same, in the same order, and
    [getTasks] answers [v] exactly as before. *)
Theorem other_users_lists_untouched (r : Request) (st : Store) (v : ObjectId) :
  v <> caller r ->
  handsOver r <> Some v ->
  filter (fun t => user t = v) (snd (handle r st))
  = filter (fun t => user t = v) st
  /\ forall conn,
       fst (getTasks conn (snd (handle r st)) v) = fst (getTasks conn st v).
Proof.
  intros Hv Hhand.
  assert (filter (ownedBy v) (snd (handle r st)) = filter (ownedBy v) st) as Heq.
  { destruct r as [conn uid | conn oid now uid b | conn now uid id b | conn uid id];
      simpl in *.
    - unfold getTasks. destruct (Task_find_sort conn st uid); reflexivity.
    - destruct (createTask_cases conn oid now st uid b)
        as [(_ & _ & _ & Heq) | (e & Heq & _)]; rewrite Heq; simpl;
        [|reflexivity].
      rewrite filter_app, filter_cons_False, filter_nil, app_nil_r;
        [reflexivity|].
      destruct (new_Task_fields oid now uid b) as (_ & Huser & _).
      unfold ownedBy. congruence.
    - unfold updateTask, Task_findOneAndUpdate.
      destruct id as [oid | raw]; [|reflexivity].
      destruct (castUpdate b) as [u | e] eqn:Hcast; [|reflexivity].
      destruct (validateUpdate u); [|reflexivity].
      destruct conn; [|reflexivity].
      destruct (list_find (matches oid uid) st) as [[i t]|] eqn:Hfind;
        [|reflexivity].
      apply list_find_matches in Hfind as (Hi & _ & Hown). simpl.
      apply (filter_insert_other _ st i t _ Hi).
      + unfold ownedBy. congruence.
      + unfold ownedBy. rewrite (applyUpdate_user now b u t Hcast).
        destruct (newOwner b) as [w|]; simpl; congruence.
    - unfold deleteTask, Task_findOneAndDelete.
      destruct id as [oid | raw]; [|reflexivity].
      destruct conn; [|reflexivity].
      destruct (list_find (matches oid uid) st) as [[i t]|] eqn:Hfind;
        [|reflexivity].
      apply list_find_matches in Hfind as (Hi & _ & Hown). simpl.
      apply (filter_delete_other _ st i t Hi). unfold ownedBy. congruence. }
  split; [exact Heq|].
  intros conn. unfold getTasks, Task_find_sort.
  destruct conn; [|reflexivity]. simpl. rewrite Heq. reflexivity.
Qed.

Lemma other_users_lists_untouched_witness :
  filter (fun t => user t = 7%N)
    (snd (handle (POST_tasks Connected 3%N 300 8%N (titleOnly "Z")) storeX))
  = [taskX].
Proof.
  assert (7%N <> 8%N) as Hne by discriminate.
  assert (@None ObjectId <> Some 7%N) as Hnone by discriminate.
  exact (proj1 (other_users_lists_untouched
                  (POST_tasks Connected 3%N 300 8%N (titleOnly "Z")) storeX 7%N
                  Hne Hnone)).
Defined.

Lemma unique_other_index (st : Store) i j t x :
  uniqueIds st -> st !! i = Some t -> st !! j = Some x -> j <> i ->
  _id x <> _id t.
Proof.
  intros Hunique Hi Hj Hne Heq. apply Hne.
  eapply (NoDup_lookup (_id <$> st) j i (_id t) Hunique).
  - rewrite list_lookup_fmap, Hj. simpl. congruence.
  - rewrite list_lookup_fmap, Hi. reflexivity.
Qed.

(** X9: the body of an update is passed to the store whole, so the
    owner of a task can hand it to another user [v] by naming [user]:
    the update answers 200 with the task now owned by [v]; from then on
    [v] gets it from [getTasks], the former owner gets no task of that
    [_id] from [getTasks], and his deletion of it answers 404. *)
Theorem update_hands_task_over (now : Time) (st : Store) (u v : ObjectId)
  (i : nat) (t : Task) (b : Body) :
  uniqueIds st ->
  st !! i = Some t ->
  user t = u ->
  validForUpdate b ->
  body_user b = Some (CastOk v) ->
  v <> u ->
  exists t',
    updateTask Connected now st u (CastOk (_id t)) b
    = ({| statusCode := 200; json := JsonTask t' |}, <[i := t']> st)
    /\ user t' = v /\ _id t' = _id t
    /\ (exists tasks,
          getTasks Connected (<[i := t']> st) v
          = ({| statusCode := 200; json := JsonTasks tasks |}, <[i := t']> st)
          /\ t' ∈ tasks)
    /\ (exists tasks,
          getTasks Connected (<[i := t']> st) u
          = ({| statusCode := 200; json := JsonTasks tasks |}, <[i := t']> st)
          /\ forall x, x ∈ tasks -> _id x <> _id t)
    /\ deleteTask Connected (<[i := t']> st) u (CastOk (_id t))
       = ({| statusCode := 404; json := JsonMessage "Task not found" None |},
          <[i := t']> st).
Proof.
  intros Hunique Hi Hown (upd & Hcast & Hvalid) Hbody Hv.
  exists (applyUpdate now upd t).
  rewrite (updateTask_valid Connected now st u (_id t) b upd Hcast Hvalid).
  rewrite <- Hown, (list_find_owned st i t Hunique Hi).
  assert (user (applyUpdate now upd t) = v) as Huser.
  { rewrite (applyUpdate_user now b upd t Hcast). unfold newOwner.
    rewrite Hbody. reflexivity. }
  assert (forall x, x ∈ <[i := applyUpdate now upd t]> st ->
            user x = user t -> _id x <> _id t) as Hformer.
  { intros x [j Hj]%list_elem_of_lookup Hx.
    destruct (decide (j = i)) as [->|Hne].
    - rewrite list_lookup_insert_eq in Hj by (eapply lookup_lt_Some, Hi).
      injection Hj as <-. congruence.
    - rewrite list_lookup_insert_ne in Hj by congruence.
      eapply unique_other_index; eauto. }
  split; [reflexivity|]. split; [exact Huser|]. split; [reflexivity|].
  split; [|split].
  - eexists. split; [reflexivity|]. apply elem_of_listed. split; [|exact Huser].
    eapply list_elem_of_lookup_2. apply list_lookup_insert_eq.
    eapply lookup_lt_Some, Hi.
  - eexists. split; [reflexivity|].
    intros x [Hx Hux]%elem_of_listed. apply Hformer; assumption.
  - rewrite deleteTask_connected.
    assert (list_find (matches (_id t) (user t))
              (<[i := applyUpdate now upd t]> st) = None) as ->; [|reflexivity].
    apply list_find_None, Forall_forall. intros x Hx [Hid Hux].
    exact (Hformer x Hx Hux Hid).
Qed.

Lemma update_hands_task_over_witness :
  exists t',
    updateTask Connected 300 storeX 7%N (CastOk 1%N)
      {| body_title := None; body_description := None; body_status := None;
         body_priority := None; body_dueDate := None;
         body_user := Some (CastOk 8%N) |}
    = ({| statusCode := 200; json := JsonTask t' |}, [t'])
    /\ user t' = 8%N.
Proof.
  assert (uniqueIds storeX) as Hunique.
  { unfold uniqueIds, storeX. simpl. apply NoDup_singleton. }
  assert (8%N <> 7%N) as Hne by discriminate.
  destruct (update_hands_task_over 300 storeX 7%N 8%N 0 taskX
              {| body_title := None; body_description := None;
                 body_status := None; body_priority := None;
                 body_dueDate := None; body_user := Some (CastOk 8%N) |}
              Hunique eq_refl eq_refl
              (ex_intro _ _ (conj eq_refl eq_refl)) eq_refl Hne)
    as (t' & Hupdate & Huser & _).
  exists t'. split; [exact Hupdate|exact Huser].
Defined.

(** ** The order of creation *)

Lemma chronological_fmap (st : Store) :
  chronological st <-> StronglySorted Z.lt (createdAt <$> st).
Proof.
  unfold chronological. induction st as [|x st IH]; simpl.
  - split; constructor.
  - rewrite !StronglySorted_cons, IH, Forall_fmap. reflexivity.
Qed.

Lemma StronglySorted_delete {A} (R : relation A) (l : list A) i :
  StronglySorted R l -> StronglySorted R (delete i l).
Proof.
  intros Hl. revert i. induction Hl as [|x l Hl IH Hx]; intros i;
    [destruct i; constructor|].
  destruct i as [|i]; simpl; [exact Hl|].
  constructor; [apply IH|]. apply Forall_delete, Hx.
Qed.

Lemma StronglySorted_filter {A} (R : relation A) (P : A -> Prop)
  `{forall x, Decision (P x)} (l : list A) :
  StronglySorted R l -> StronglySorted R (filter P l).
Proof.
  induction 1 as [|x l Hl IH Hx]; [constructor|].
  rewrite filter_cons. destruct (decide (P x)); [|exact IH].
  constructor; [exact IH|]. apply Forall_forall.
  intros y [_ Hy]%list_elem_of_filter. rewrite Forall_forall in Hx. auto.
Qed.

Lemma chronological_distinct (st : Store) x y :
  chronological st -> x ∈ st -> y ∈ st -> createdAt x = createdAt y -> x = y.
Proof.
  unfold chronological. induction 1 as [|z l Hl IH Hz]; intros Hx Hy Heq.
  - apply elem_of_nil in Hx. contradiction.
  - rewrite Forall_forall in Hz.
    apply elem_of_cons in Hx as [-> | Hx], Hy as [-> | Hy].
    + reflexivity.
    + specialize (Hz y Hy). lia.
    + specialize (Hz x Hx). lia.
    + apply IH; assumption.
Qed.

Lemma chronological_reverse (st : Store) :
  chronological st -> newestFirst (reverse st).
Proof.
  unfold chronological, newestFirst. induction 1 as [|x l Hl IH Hx].
  - constructor.
  - rewrite reverse_cons. apply StronglySorted_app_2.
    + intros x1 x2 Hx1 Hx2%list_elem_of_singleton. subst x2.
      rewrite elem_of_reverse in Hx1. rewrite Forall_forall in Hx. specialize (Hx x1 Hx1).
      unfold newerFirst. lia.
    + exact IH.
    + repeat constructor.
Qed.

Lemma chronological_snoc (st : Store) t :
  chronological st -> Forall (fun x => createdAt x < createdAt t) st ->
  chronological (st ++ [t]).
Proof.
  intros Hst Hlater. apply StronglySorted_app_2; [|exact Hst|repeat constructor].
  intros x1 x2 Hx1 Hx2%list_elem_of_singleton. subst x2.
  rewrite Forall_forall in Hlater. auto.
Qed.

Lemma chronological_insert (st : Store) i t t' :
  chronological st -> st !! i = Some t -> createdAt t' = createdAt t ->
  chronological (<[i := t']> st).
Proof.
  intros Hst Hi Hsame. apply chronological_fmap. rewrite list_fmap_insert.
  rewrite list_insert_id; [apply chronological_fmap, Hst|].
  rewrite list_lookup_fmap, Hi. simpl. congruence.
Qed.

(** X10: when every creation comes with a clock later than the
    [createdAt] of every stored task, the collection stays in the order of
    creation with strictly growing [createdAt]: an update never changes
    [createdAt], a deletion keeps the order of the rest. *)
Theorem creation_order_kept (r : Request) (st : Store) :
  StronglySorted (fun a b => createdAt a < createdAt b) st ->
  timely st r ->
  StronglySorted (fun a b => createdAt a < createdAt b) (snd (handle r st)).
Proof.
  intros Hst Htimely.
  destruct r as [conn uid | conn oid now uid b | conn now uid id b | conn uid id];
    simpl in *.
  - unfold getTasks. destruct (Task_find_sort conn st uid); exact Hst.
  - destruct (createTask_cases conn oid now st uid b)
      as [(_ & _ & _ & Heq) | (e & Heq & _)]; rewrite Heq; simpl;
      [|exact Hst].
    destruct (new_Task_fields oid now uid b) as (_ & _ & Hcreated & _).
    apply chronological_snoc; [exact Hst|]. rewrite Hcreated. exact Htimely.
  - unfold updateTask, Task_findOneAndUpdate.
    destruct id as [oid | raw]; [|exact Hst].
    destruct (castUpdate b) as [u | e]; [|exact Hst].
    destruct (validateUpdate u); [|exact Hst].
    destruct conn; [|exact Hst].
    destruct (list_find (matches oid uid) st) as [[i t]|] eqn:Hfind;
      [|exact Hst].
    apply list_find_matches in Hfind as (Hi & _). simpl.
    apply (chronological_insert st i t _ Hst Hi). reflexivity.
  - unfold deleteTask, Task_findOneAndDelete.
    destruct id as [oid | raw]; [|exact Hst].
    destruct conn; [|exact Hst].
    destruct (list_find (matches oid uid) st) as [[i t]|]; [|exact Hst].
    simpl. apply StronglySorted_delete, Hst.
Qed.

Lemma creation_order_kept_witness :
  StronglySorted (fun a b => createdAt a < createdAt b)
    (snd (handle (POST_tasks Connected 3%N 300 8%N (titleOnly "Z")) storeX)).
Proof.
  assert (StronglySorted (fun a b => createdAt a < createdAt b) storeX) as Hst
    by (repeat constructor).
  assert (timely storeX (POST_tasks Connected 3%N 300 8%N (titleOnly "Z")))
    as Htimely.
  { simpl. apply Forall_singleton. simpl. lia. }
  exact (creation_order_kept _ storeX Hst Htimely).
Defined.

Lemma listed_chronological (st : Store) (uid : ObjectId) :
  chronological st ->
  merge_sort newerFirst (filter (ownedBy uid) st)
  = reverse (filter (ownedBy uid) st).
Proof.
  intros Hst.
  assert (chronological (filter (ownedBy uid) st)) as Hfiltered
    by (apply StronglySorted_filter, Hst).
  apply StronglySorted_unique_strong with (R := newerFirst).
  - intros x1 x2 Hx1 Hx2 H12 H21. unfold newerFirst in *.
    rewrite merge_sort_Permutation in Hx1. rewrite elem_of_reverse in Hx2.
    apply (chronological_distinct _ x1 x2 Hfiltered Hx1 Hx2). lia.
  - apply StronglySorted_merge_sort; apply _.
  - apply chronological_reverse, Hfiltered.
  - rewrite merge_sort_Permutation, reverse_Permutation. reflexivity.
Qed.

Lemma fetched_chronological (st : Store) (uid : ObjectId) :
  chronological st -> fetched st uid = reverse (filter (ownedBy uid) st).
Proof.
  intros Hst. unfold fetched, getTasks, Task_find_sort. simpl.
  apply listed_chronological, Hst.
Qed.

(** X11: on a collection in the order of creation with strictly growing
    [createdAt], [getTasks] answers the tasks of the caller in the reverse
    of the order in which they were created: the sort leaves no choice. *)
Theorem getTasks_reverse_creation_order (st : Store) (uid : ObjectId) :
  StronglySorted (fun a b => createdAt a < createdAt b) st ->
  getTasks Connected st uid
  = ({| statusCode := 200;
        json := JsonTasks (reverse (filter (fun t => user t = uid) st)) |}, st).
Proof.
  intros Hst. unfold getTasks, Task_find_sort.
  rewrite (listed_chronological st uid Hst). reflexivity.
Qed.

Lemma getTasks_reverse_creation_order_witness :
  getTasks Connected [taskY; taskX] 7%N
  = ({| statusCode := 200; json := JsonTasks [taskX; taskY] |}, [taskY; taskX]).
Proof.
  assert (StronglySorted (fun a b => createdAt a < createdAt b) [taskY; taskX])
    as Hst by (repeat constructor).
  exact (getTasks_reverse_creation_order [taskY; taskX] 7%N Hst).
Defined.

(** ** The client list and the server *)

Lemma filter_commute (P Q : Task -> Prop) `{forall x, Decision (P x)}
  `{forall x, Decision (Q x)} (l : list Task) :
  filter P (filter Q l) = filter Q (filter P l).
Proof.
  rewrite !list_filter_filter. apply list_filter_iff. intros x. tauto.
Qed.

Lemma fmap_fixed (f : Task -> Task) (l : list Task) :
  Forall (fun x => f x = x) l -> f <$> l = l.
Proof.
  induction 1 as [|x l Hx Hl IH]; [reflexivity|].
  simpl. rewrite Hx. f_equal. exact IH.
Qed.

Lemma filter_insert_owned (st : Store) i t t' uid :
  uniqueIds st -> st !! i = Some t -> ownedBy uid t -> ownedBy uid t' ->
  filter (ownedBy uid) (<[i := t']> st)
  = (fun x => if decide (_id x = _id t) then t' else x)
      <$> filter (ownedBy uid) st.
Proof.
  unfold uniqueIds. revert i. induction st as [|x st IH];
    intros i Hnodup Hi Ht Ht'; [discriminate|].
  simpl in Hnodup. apply NoDup_cons in Hnodup as [Hx Hnodup].
  destruct i as [|i]; simpl in *.
  - injection Hi as ->.
    rewrite !filter_cons_True by assumption. simpl.
    destruct (decide (_id t = _id t)); [|contradiction]. f_equal.
    symmetry. apply fmap_fixed, Forall_forall.
    intros y [_ Hy]%list_elem_of_filter.
    destruct (decide (_id y = _id t)) as [Heq|]; [|reflexivity].
    destruct Hx. rewrite <- Heq. apply list_elem_of_fmap_2, Hy.
  - assert (_id x <> _id t) as Hne.
    { intros Heq. apply Hx. rewrite Heq.
      apply list_elem_of_fmap_2. eapply list_elem_of_lookup_2, Hi. }
    rewrite !filter_cons. destruct (decide (ownedBy uid x)); simpl.
    + destruct (decide (_id x = _id t)); [contradiction|].
      f_equal. apply IH; assumption.
    + apply IH; assumption.
Qed.

(** X12: the list the client keeps after a creation is the list a
    refetch would give.  When the collection is in the order of creation
    and the clock of the creation is later than every stored task,
    [handleCreateTask] applied to the answer of [createTask], whether it
    succeeded or failed, turns the fetched list of before into the
    fetched list of after. *)
Theorem client_create_in_sync (conn : Connection) (oid : ObjectId)
  (now : Time) (st : Store) (u : ObjectId) (b : Body) (resp : Response)
  (st' : Store) :
  StronglySorted (fun a b => createdAt a < createdAt b) st ->
  Forall (fun t => createdAt t < now) st ->
  createTask conn oid now st u b = (resp, st') ->
  fetched st' u = handleCreateTask (axiosTask resp) (fetched st u).
Proof.
  intros Hst Hlater Hcreate.
  destruct (createTask_cases conn oid now st u b)
    as [(_ & _ & _ & Heq) | (e & Heq & _)];
    rewrite Heq in Hcreate; injection Hcreate as <- <-; [|reflexivity].
  destruct (new_Task_fields oid now u b) as (_ & Huser & Hcreated & _).
  set (t := fst (new_Task oid now u b)) in *.
  assert (chronological (st ++ [t])) as Hst'.
  { apply chronological_snoc; [exact Hst|]. rewrite Hcreated. exact Hlater. }
  rewrite (fetched_chronological _ u Hst'), (fetched_chronological _ u Hst).
  rewrite filter_app, filter_cons_True, filter_nil by exact Huser.
  rewrite reverse_snoc. reflexivity.
Qed.

Lemma client_create_in_sync_witness :
  fetched [taskY; taskX] 7%N
  = handleCreateTask
      (axiosTask (fst (createTask Connected 1%N 100 [taskY] 7%N (titleOnly "X"))))
      (fetched [taskY] 7%N).
Proof.
  assert (StronglySorted (fun a b => createdAt a < createdAt b) [taskY]) as Hst
    by (repeat constructor).
  assert (Forall (fun t => createdAt t < 100) [taskY]) as Hlater
    by (repeat constructor).
  exact (client_create_in_sync Connected 1%N 100 [taskY] 7%N (titleOnly "X")
           _ _ Hst Hlater eq_refl).
Defined.

Lemma updateTask_failed conn now st uid id b resp st' :
  updateTask conn now st uid id b = (resp, st') ->
  statusCode resp <> 200%nat ->
  axiosTask resp = None /\ st' = st.
Proof.
  unfold updateTask, Task_findOneAndUpdate.
  destruct id as [oid | raw]; [|intros [= <- <-]; auto].
  destruct (castUpdate b) as [u | e]; [|intros [= <- <-]; auto].
  destruct (validateUpdate u); [|intros [= <- <-]; auto].
  destruct conn; [|intros [= <- <-]; auto].
  destruct (list_find (matches oid uid) st) as [[i t]|];
    intros [= <- <-] Hfail; simpl in *; [contradiction|auto].
Qed.

(** X13: the list the client keeps after an update is the list a
    refetch would give, as long as the update does not hand the task to
    another user: [handleUpdateTask] applied to the answer of
    [updateTask], whether it succeeded or failed, turns the fetched list
    of before into the fetched list of after. *)
Theorem client_update_in_sync (conn : Connection) (now : Time) (st : Store)
  (u taskId : ObjectId) (b : Body) (resp : Response) (st' : Store) :
  StronglySorted (fun a b => createdAt a < createdAt b) st ->
  uniqueIds st ->
  newOwner b = None \/ newOwner b = Some u ->
  updateTask conn now st u (CastOk taskId) b = (resp, st') ->
  fetched st' u = handleUpdateTask taskId (axiosTask resp) (fetched st u).
Proof.
  intros Hst Hunique Hkeep Hupdate.
  destruct (decide (statusCode resp = 200%nat)) as [Hok|Hfail].
  - destruct (updateTask_updated _ _ _ _ _ _ _ _ Hupdate Hok)
      as (oid & upd & i & t & [= <-] & -> & Hcast & Hvalid & Hfind & -> & ->).
    apply list_find_matches in Hfind as (Hi & Hid & Hown).
    set (t' := applyUpdate now upd t) in *.
    assert (ownedBy u t') as Hown'.
    { unfold ownedBy, t'. rewrite (applyUpdate_user now b upd t Hcast).
      destruct Hkeep as [-> | ->]; simpl; [exact Hown|reflexivity]. }
    assert (chronological (<[i := t']> st)) as Hst'
      by (apply (chronological_insert st i t t' Hst Hi); reflexivity).
    rewrite (fetched_chronological _ u Hst'), (fetched_chronological _ u Hst).
    rewrite (filter_insert_owned st i t t' u Hunique Hi Hown Hown').
    unfold axiosTask, handleUpdateTask. simpl.
    rewrite Hid. symmetry. apply fmap_reverse.
  - destruct (updateTask_failed _ _ _ _ _ _ _ _ Hupdate Hfail) as [-> ->].
    reflexivity.
Qed.

Lemma client_update_in_sync_witness :
  fetched (snd (updateTask Connected 300 [taskY; taskX] 7%N (CastOk 2%N)
                  (statusOnly "completed"))) 7%N
  = handleUpdateTask 2%N
      (axiosTask (fst (updateTask Connected 300 [taskY; taskX] 7%N (CastOk 2%N)
                         (statusOnly "completed"))))
      (fetched [taskY; taskX] 7%N).
Proof.
  assert (StronglySorted (fun a b => createdAt a < createdAt b) [taskY; taskX])
    as Hst by (repeat constructor).
  assert (uniqueIds [taskY; taskX]) as Hunique.
  { unfold uniqueIds. simpl. apply NoDup_cons. split.
    - intros H%list_elem_of_singleton. discriminate H.
    - apply NoDup_singleton. }
  exact (client_update_in_sync Connected 300 [taskY; taskX] 7%N 2%N
           (statusOnly "completed") _ _ Hst Hunique (or_introl eq_refl) eq_refl).
Defined.

(** X14: the list the client keeps after a deletion is the list a
    refetch would give: [handleDeleteTask] applied to the outcome of
    [deleteTask], whether it succeeded or failed, turns the fetched list
    of before into the fetched list of after. *)
Theorem client_delete_in_sync (conn : Connection) (st : Store)
  (u taskId : ObjectId) (resp : Response) (st' : Store) :
  StronglySorted (fun a b => createdAt a < createdAt b) st ->
  uniqueIds st ->
  deleteTask conn st u (CastOk taskId) = (resp, st') ->
  fetched st' u = handleDeleteTask taskId (axiosOk resp) (fetched st u).
Proof.
  intros Hst Hunique. unfold deleteTask, Task_findOneAndDelete.
  destruct conn; [|intros [= <- <-]; reflexivity].
  destruct (list_find (matches taskId u) st) as [[i t]|] eqn:Hfind;
    intros [= <- <-]; [|reflexivity].
  apply list_find_matches in Hfind as (Hi & Hid & _).
  assert (chronological (delete i st)) as Hst'
    by (apply StronglySorted_delete, Hst).
  rewrite (fetched_chronological _ u Hst'), (fetched_chronological _ u Hst).
  rewrite <- (filter_delete_unique st i t Hunique Hi), Hid.
  unfold axiosOk, handleDeleteTask. simpl.
  rewrite filter_reverse. f_equal. apply filter_commute.
Qed.

Lemma client_delete_in_sync_witness :
  fetched (snd (deleteTask Connected [taskY; taskX] 7%N (CastOk 2%N))) 7%N
  = handleDeleteTask 2%N
      (axiosOk (fst (deleteTask Connected [taskY; taskX] 7%N (CastOk 2%N))))
      (fetched [taskY; taskX] 7%N).
Proof.
  assert (StronglySorted (fun a b => createdAt a < createdAt b) [taskY; taskX])
    as Hst by (repeat constructor).
  assert (uniqueIds [taskY; taskX]) as Hunique.
  { unfold uniqueIds. simpl. apply NoDup_cons. split.
    - intros H%list_elem_of_singleton. discriminate H.
    - apply NoDup_singleton. }
  exact (client_delete_in_sync Connected [taskY; taskX] 7%N 2%N _ _
           Hst Hunique eq_refl).
Defined.

(** X15: a successful [handleDeleteTask] keeps exactly the tasks whose
    [_id] is not the deleted one, in their order, so a list that was
    newest first stays so; doing it again changes nothing, and on a list
    without that [_id] it changes nothing at all. *)
Theorem handleDeleteTask_removes (taskId : ObjectId) (tasks : list Task) :
  (forall x, x ∈ handleDeleteTask taskId (Some tt) tasks
             <-> x ∈ tasks /\ _id x <> taskId)
  /\ handleDeleteTask taskId (Some tt) tasks `sublist_of` tasks
  /\ (StronglySorted (fun a b => createdAt b <= createdAt a) tasks ->
        StronglySorted (fun a b => createdAt b <= createdAt a)
          (handleDeleteTask taskId (Some tt) tasks))
  /\ handleDeleteTask taskId (Some tt) (handleDeleteTask taskId (Some tt) tasks)
     = handleDeleteTask taskId (Some tt) tasks
  /\ (Forall (fun x => _id x <> taskId) tasks ->
        handleDeleteTask taskId (Some tt) tasks = tasks).
Proof.
  unfold handleDeleteTask. split; [|split; [|split; [|split]]].
  - intros x. rewrite list_elem_of_filter. tauto.
  - apply sublist_filter.
  - apply StronglySorted_filter.
  - apply filter_all. apply Forall_forall.
    intros x [Hx _]%list_elem_of_filter. exact Hx.
  - apply filter_all.
Qed.

Lemma handleDeleteTask_removes_witness :
  StronglySorted (fun a b => createdAt b <= createdAt a)
    (handleDeleteTask 1%N (Some tt) [taskX; taskY]).
Proof.
  assert (StronglySorted (fun a b => createdAt b <= createdAt a) [taskX; taskY])
    as Hsorted.
  { repeat constructor. simpl. lia. }
  exact (proj1 (proj2 (proj2 (handleDeleteTask_removes 1%N [taskX; taskY])))
           Hsorted).
Defined.

(** ** Routes and session *)

(** X16: once loading is over, every location settles after at most two
    redirects, never on a redirect; the dashboard is shown only to an
    authenticated app and shows the tasks of the state, the login and
    register forms only to an app that is not authenticated; each
    declared route ends on the dashboard when authenticated and on a form
    when not.  While loading, every location shows the loading screen. *)
Theorem route_guard (s : App.State) (loc : App.Location) :
  (App.loading s = false ->
     (forall to, App.settle 2 s loc <> App.Navigate to)
     /\ App.settle 2 s loc <> App.LoadingScreen
     /\ (forall shown, App.settle 2 s loc = App.Dashboard shown ->
           App.isAuthenticated s = true /\ shown = App.tasks s)
     /\ (App.settle 2 s loc = App.LoginForm
         \/ App.settle 2 s loc = App.RegisterForm ->
           App.isAuthenticated s = false)
     /\ (loc <> App.Elsewhere ->
           if App.isAuthenticated s
           then App.settle 2 s loc = App.Dashboard (App.tasks s)
           else App.settle 2 s loc = App.LoginForm
                \/ App.settle 2 s loc = App.RegisterForm))
  /\ (App.loading s = true ->
        forall n, App.settle n s loc = App.LoadingScreen).
Proof.
  split.
  - intros Hloading. unfold App.settle, App.render. rewrite Hloading.
    destruct loc, (App.isAuthenticated s); simpl;
      repeat split; try discriminate; try congruence; intros;
      try match goal with
        | H : _ \/ _ |- _ => destruct H; discriminate
        | H : App.Dashboard _ = App.Dashboard _ |- _ =>
            injection H; congruence
        end; auto.
  - intros Hloading n. destruct n; simpl; unfold App.render;
      rewrite Hloading; reflexivity.
Qed.

Lemma route_guard_witness :
  App.settle 2 (fst (App.step App.Logout
                       ({| App.token := Some "t"; App.isAuthenticated := true;
                           App.tasks := [taskX]; App.loading := false |}, [])))
    App.AtDashboard
  <> App.Dashboard [taskX].
Proof.
  intros H.
  destruct (proj1 (route_guard
                     (fst (App.step App.Logout
                             ({| App.token := Some "t";
                                 App.isAuthenticated := true;
                                 App.tasks := [taskX];
                                 App.loading := false |}, [])))
                     App.AtDashboard) eq_refl)
    as (_ & _ & Hdash & _).
  destruct (Hdash _ H) as [Hauth _]. discriminate Hauth.
Defined.

Lemma complete_session c r s :
  App.token (App.complete c r s) = App.token s
  /\ App.isAuthenticated (App.complete c r s) = App.isAuthenticated s.
Proof.
  destruct c; simpl;
    [destruct (axiosTasks r) | destruct (axiosTask r)
    | destruct (axiosTask r) | destruct (axiosOk r)]; auto.
Qed.

Lemma step_consistent e sc :
  App.properLogin e ->
  App.consistent (fst sc) -> App.consistent (fst (App.step e sc)).
Proof.
  destruct sc as [s calls]. unfold App.consistent. simpl.
  destruct e as [| tok | | | taskId | taskId | n r]; simpl; intros Hproper Hs;
    try exact Hs.
  - destruct (truthy (App.token s)) eqn:Htoken; simpl; congruence.
  - destruct tok; [contradiction|reflexivity].
  - reflexivity.
  - destruct (calls !! n) as [c|]; simpl; [|exact Hs].
    destruct (complete_session c r s) as [-> ->]. exact Hs.
Qed.

Lemma run_consistent es sc :
  Forall App.properLogin es ->
  App.consistent (fst sc) -> App.consistent (fst (App.run es sc)).
Proof.
  revert sc. induction es as [|e es IH]; intros sc Hes Hsc; simpl;
    [exact Hsc|].
  apply Forall_cons in Hes as [He Hes].
  apply IH; [exact Hes|]. apply step_consistent; assumption.
Qed.

Lemma authorization_truthy token :
  truthy token = true
  <-> exists tok, token = Some tok
                  /\ authorization token = Some ("Bearer " ++ tok)%string.
Proof.
  destruct token as [[|c tok]|]; simpl; split; try discriminate.
  - intros (tok & [= <-] & H). discriminate H.
  - intros _. eauto.
  - intros _. reflexivity.
  - intros (tok & [=] & _).
Qed.

(** X17: from the first render on, and as long as no empty token is
    logged in, the app is authenticated exactly when [localStorage] holds
    a token that the request interceptor sends as [Bearer <token>]; a
    reload then finds the same authentication state.  A login with the
    empty token breaks this: the app counts as authenticated, but no
    [Authorization] header is sent and a reload is not authenticated. *)
Theorem session_matches_storage :
  (forall stored es,
      Forall App.properLogin es ->
      let s := fst (App.run (App.Mount :: es) (App.initial stored, [])) in
      (App.isAuthenticated s = true
       <-> exists tok, App.token s = Some tok
                       /\ authorization (App.token s)
                          = Some ("Bearer " ++ tok)%string)
      /\ (App.isAuthenticated s = false <-> authorization (App.token s) = None)
      /\ App.isAuthenticated (fst (App.reload s)) = App.isAuthenticated s)
  /\ (forall sc,
        let s := fst (App.step (App.Login EmptyString) sc) in
        App.isAuthenticated s = true
        /\ authorization (App.token s) = None
        /\ App.isAuthenticated (fst (App.reload s)) = false).
Proof.
  split.
  - intros stored es Hes s.
    assert (App.consistent s) as Hs.
    { subst s. simpl App.run. apply run_consistent; [exact Hes|].
      unfold App.consistent. simpl.
      destruct (truthy stored) eqn:Hstored; simpl; congruence. }
    unfold App.consistent in Hs. split; [|split].
    + rewrite Hs. apply authorization_truthy.
    + rewrite Hs. destruct (App.token s) as [[|c tok]|]; simpl;
        split; congruence.
    + unfold App.reload. simpl. rewrite Hs.
      destruct (truthy (App.token s)); reflexivity.
  - intros [s0 calls]. simpl. auto.
Qed.

Lemma session_matches_storage_witness :
  App.isAuthenticated
    (fst (App.run [App.Mount; App.Login "abc"; App.Logout]
            (App.initial None, [])))
  = false.
Proof.
  assert (Forall App.properLogin [App.Login "abc"; App.Logout]) as Hes.
  { constructor; [simpl; discriminate|]. constructor; [exact I|constructor]. }
  destruct (proj1 session_matches_storage None _ Hes) as (_ & Hfalse & _).
  apply Hfalse. reflexivity.
Defined.

(** X18: the loading screen belongs to the start only.  The first
    render without a usable token ends loading at once; with one it
    starts [fetchTasks], and the answer to [fetchTasks] ends loading
    whether it succeeds (the list becomes the answer) or fails (the list
    stays); and no event ever turns loading on again. *)
Theorem loading_only_at_start :
  (forall stored,
      truthy stored = false ->
      App.step App.Mount (App.initial stored, [])
      = ({| App.token := stored; App.isAuthenticated := false;
            App.tasks := []; App.loading := false |}, []))
  /\ (forall stored,
        truthy stored = true ->
        App.step App.Mount (App.initial stored, [])
        = ({| App.token := stored; App.isAuthenticated := true;
              App.tasks := []; App.loading := true |}, [App.FetchTasks]))
  /\ (forall r s,
        App.loading (App.complete App.FetchTasks r s) = false
        /\ App.tasks (App.complete App.FetchTasks r s)
           = default (App.tasks s) (axiosTasks r))
  /\ (forall es sc,
        App.loading (fst sc) = false ->
        App.loading (fst (App.run es sc)) = false).
Proof.
  split; [|split; [|split]].
  - intros stored Hstored. simpl. rewrite Hstored. reflexivity.
  - intros stored Hstored. simpl. rewrite Hstored. reflexivity.
  - intros r s. simpl. destruct (axiosTasks r); auto.
  - intros es. induction es as [|e es IH]; intros sc Hsc; simpl; [exact Hsc|].
    apply IH. destruct sc as [s calls]. simpl in *.
    destruct e as [| tok | | | taskId | taskId | n r]; simpl; try exact Hsc.
    + destruct (truthy (App.token s)); simpl; [exact Hsc|reflexivity].
    + destruct (calls !! n) as [c|]; simpl; [|exact Hsc].
      destruct c; simpl;
        [destruct (axiosTasks r) | destruct (axiosTask r)
        | destruct (axiosTask r) | destruct (axiosOk r)]; simpl; auto.
Qed.

Lemma loading_only_at_start_witness :
  App.loading
    (fst (App.run [App.Login "abc"; App.StartCreate]
            (App.step App.Mount (App.initial None, []))))
  = false.
Proof.
  apply (proj2 (proj2 (proj2 loading_only_at_start))). reflexivity.
Defined.

(** ** Calls in flight *)

(** X19: the task handlers write the list they captured when they were
    started.  Two creations started one after the other and answered in
    that order add both tasks; two creations started before either is
    answered leave only the one answered last in the list: the other
    created task is missing although the server stored it. *)
Theorem overlapping_creations_lose_one (s : App.State) (r1 r2 : Response)
  (d1 d2 : Task) :
  axiosTask r1 = Some d1 ->
  axiosTask r2 = Some d2 ->
  App.tasks (fst (App.run [App.StartCreate; App.Answer 0 r1;
                           App.StartCreate; App.Answer 0 r2] (s, [])))
  = d2 :: d1 :: App.tasks s
  /\ App.tasks (fst (App.run [App.StartCreate; App.StartCreate;
                              App.Answer 0 r1; App.Answer 0 r2] (s, [])))
     = d2 :: App.tasks s
  /\ App.tasks (fst (App.run [App.StartCreate; App.StartCreate;
                              App.Answer 1 r2; App.Answer 0 r1] (s, [])))
     = d1 :: App.tasks s
  /\ (d1 <> d2 -> d1 ∉ App.tasks s ->
        d1 ∉ App.tasks (fst (App.run [App.StartCreate; App.StartCreate;
                                      App.Answer 0 r1; App.Answer 0 r2]
                               (s, [])))).
Proof.
  intros H1 H2. simpl. rewrite !H1, !H2. simpl.
  split; [reflexivity|]. split; [reflexivity|]. split; [reflexivity|].
  intros Hne Hnot [Heq | Hin]%elem_of_cons; contradiction.
Qed.

Lemma overlapping_creations_lose_one_witness :
  App.tasks
    (fst (App.run
            [App.StartCreate; App.StartCreate;
             App.Answer 0 {| statusCode := 201; json := JsonTask taskY |};
             App.Answer 0 {| statusCode := 201; json := JsonTask taskX |}]
            (App.initial None, [])))
  = [taskX].
Proof.
  exact (proj1 (proj2 (overlapping_creations_lose_one (App.initial None)
                         {| statusCode := 201; json := JsonTask taskY |}
                         {| statusCode := 201; json := JsonTask taskX |}
                         taskY taskX eq_refl eq_refl))).
Defined.

(** X20: [handleLogout] empties the list, but an answer that arrives
    afterwards for a creation started before puts the captured tasks
    back; if the next login's [fetchTasks] then fails, the dashboard shows
    them. *)
Theorem late_answer_survives_logout (s : App.State) (r rf : Response)
  (d : Task) (tok : string) :
  axiosTask r = Some d ->
  axiosTasks rf = None ->
  App.tasks (fst (App.run [App.StartCreate; App.Logout] (s, []))) = []
  /\ App.tasks (fst (App.run [App.StartCreate; App.Logout; App.Answer 0 r]
                       (s, [])))
     = d :: App.tasks s
  /\ App.render
       (fst (App.run [App.StartCreate; App.Logout; App.Answer 0 r;
                      App.Login tok; App.Answer 0 rf] (s, [])))
       App.AtDashboard
     = App.Dashboard (d :: App.tasks s).
Proof.
  intros Hr Hrf. simpl. rewrite Hr. simpl. rewrite Hrf.
  split; [reflexivity|]. split; [reflexivity|]. reflexivity.
Qed.

Lemma late_answer_survives_logout_witness :
  App.render
    (fst (App.run
            [App.StartCreate; App.Logout;
             App.Answer 0 {| statusCode := 201; json := JsonTask taskX |};
             App.Login "next";
             App.Answer 0 {| statusCode := 500;
                             json := JsonMessage "Server error" None |}]
            ({| App.token := Some "first"; App.isAuthenticated := true;
                App.tasks := [taskY]; App.loading := false |}, [])))
    App.AtDashboard
  = App.Dashboard [taskX; taskY].
Proof.
  exact (proj2 (proj2 (late_answer_survives_logout
                         {| App.token := Some "first";
                            App.isAuthenticated := true;
                            App.tasks := [taskY]; App.loading := false |}
                         {| statusCode := 201; json := JsonTask taskX |}
                         {| statusCode := 500;
                            json := JsonMessage "Server error" None |}
                         taskX "next" eq_refl eq_refl))).
Defined.

(** ** Changing the status from the task item *)

Lemma enum_value_valid p values s :
  enum p = Some values -> required p = false -> maxlength p = None ->
  s ∈ values -> validateValue p s = [].
Proof.
  intros Henum Hreq Hmax Hin. apply validateValue_nil.
  unfold checkRequired, checkMaxlength. rewrite Hreq, Hmax. simpl.
  split; [reflexivity|]. split; [reflexivity|].
  apply (checkEnum_ok p s values Henum), Hin.
Qed.

(** X21: the status select of a task item works on every stored task.
    For a task of a reachable collection and a status of the enum, the
    body [handleStatusChange] builds from the task passes the casts and
    the update validators (the stored title and description are already
    trimmed and within their bounds), and the update answers 200 with the
    same task, the status replaced and [updatedAt] set: nothing else of
    the task changes, and it stays with its owner. *)
Theorem status_change_round_trip (now : Time) (st : Store) (i : nat)
  (t : Task) (newStatus : string) :
  reachable st ->
  st !! i = Some t ->
  newStatus ∈ status_enum ->
  let t' :=
    {| _id := _id t; title := title t; description := description t;
       status := Some newStatus; priority := priority t;
       dueDate := dueDate t; user := user t; createdAt := createdAt t;
       updatedAt := now |} in
  updateTask Connected now st (user t)
    (CastOk (fst (handleStatusChange t newStatus)))
    (snd (handleStatusChange t newStatus))
  = ({| statusCode := 200; json := JsonTask t' |}, <[i := t']> st).
Proof.
  intros Hreach Hi Hstatus t'.
  pose proof (reachable_uniqueIds st Hreach) as Hunique.
  pose proof (reachable_storedOk st Hreach) as Hok.
  rewrite Forall_forall in Hok.
  destruct (Hok t (list_elem_of_lookup_2 _ _ _ Hi))
    as ((s & Hs & Hne & Hlen & Hl & Hr) & Hdesc & _ & (p & Hp & Hpin)).
  pose proof (trim_id s Hl Hr) as Htrim.
  set (b := snd (handleStatusChange t newStatus)).
  set (u := {| set_title := Some s; set_description := description t;
               set_status := Some newStatus; set_priority := priority t;
               set_dueDate := dueDate t; set_user := Some (user t) |}).
  assert (castUpdate b = Resolved u) as Hcast.
  { unfold castUpdate, b, u. simpl. rewrite Hs.
    assert (setString description_path <$> description t = description t)
      as Hd.
    { destruct (description t) as [d|]; [|reflexivity].
      destruct (Hdesc d eq_refl) as (_ & Hdl & Hdr).
      unfold setString. simpl. rewrite (trim_id d Hdl Hdr). reflexivity. }
    assert (setString priority_path <$> priority t = priority t) as Hpr
      by (destruct (priority t); reflexivity).
    destruct (dueDate t); simpl; rewrite Hd, Hpr; unfold setString; simpl;
      rewrite Htrim; reflexivity. }
  assert (validateUpdate u = []) as Hvalid.
  { apply validateUpdate_nil. unfold u. simpl. split; [|split; [|split]].
    - rewrite <- Htrim. apply title_value_valid. rewrite Htrim. auto.
    - destruct (description t) as [d|] eqn:Hd; simpl; [|reflexivity].
      destruct (Hdesc d eq_refl) as (Hdlen & Hdl & Hdr).
      rewrite <- (trim_id d Hdl Hdr). apply description_value_valid.
      rewrite (trim_id d Hdl Hdr). exact Hdlen.
    - apply (enum_value_valid status_path status_enum); auto.
    - rewrite Hp. simpl.
      apply (enum_value_valid priority_path priority_enum); auto. }
  change (fst (handleStatusChange t newStatus)) with (_id t).
  rewrite (updateTask_valid Connected now st (user t) (_id t) b u Hcast Hvalid).
  rewrite (list_find_owned st i t Hunique Hi).
  assert (applyUpdate now u t = t') as ->; [|reflexivity].
  unfold applyUpdate, t', u. simpl. rewrite Hs. simpl.
  destruct (description t), (priority t), (dueDate t); reflexivity.
Qed.

Lemma status_change_round_trip_witness :
  exists t',
    updateTask Connected 300 storeX 7%N (CastOk 1%N)
      (snd (handleStatusChange taskX "completed"))
    = ({| statusCode := 200; json := JsonTask t' |}, [t'])
    /\ status t' = Some "completed" /\ title t' = Some "X".
Proof.
  assert (reachable storeX) as Hreach.
  { exists [POST_tasks Connected 1%N 100 7%N (titleOnly "X")]. reflexivity. }
  assert ("completed" ∈ status_enum) as Hin.
  { unfold status_enum. apply list_elem_of_further, list_elem_of_further,
      list_elem_of_here. }
  eexists. split.
  - exact (status_change_round_trip 300 storeX 0 taskX "completed"
             Hreach eq_refl Hin).
  - split; reflexivity.
Defined.

(** ** The client list after an answer *)

Lemma answer_own_call s calls c r :
  App.step (App.Answer (length calls) r) (s, calls ++ [c])
  = (App.complete c r s, calls).
Proof.
  simpl. rewrite (list_lookup_middle calls [] c (length calls) eq_refl).
  rewrite (delete_middle calls [] c), app_nil_r. reflexivity.
Qed.

Lemma create_answered s calls r :
  App.tasks (fst (App.run [App.StartCreate; App.Answer (length calls) r]
                    (s, calls)))
  = handleCreateTask (axiosTask r) (App.tasks s).
Proof.
  change (App.run [App.StartCreate; App.Answer (length calls) r] (s, calls))
    with (App.step (App.Answer (length calls) r)
            (s, calls ++ [App.CreateTask (App.tasks s)])).
  rewrite answer_own_call. simpl. destruct (axiosTask r); reflexivity.
Qed.

Lemma update_answered s calls taskId r :
  App.tasks (fst (App.run [App.StartUpdate taskId;
                           App.Answer (length calls) r] (s, calls)))
  = handleUpdateTask taskId (axiosTask r) (App.tasks s).
Proof.
  change (App.run [App.StartUpdate taskId; App.Answer (length calls) r]
            (s, calls))
    with (App.step (App.Answer (length calls) r)
            (s, calls ++ [App.UpdateTask taskId (App.tasks s)])).
  rewrite answer_own_call. simpl. destruct (axiosTask r); reflexivity.
Qed.

Lemma fetched_newestFirst st uid : newestFirst (fetched st uid).
Proof.
  unfold fetched, getTasks, Task_find_sort. simpl.
  apply StronglySorted_merge_sort; apply _.
Qed.

(** What a refetch returns after a creation, from what it returned
    before. *)
Lemma refetch_after_create conn oid now st u b resp st' :
  chronological st ->
  Forall (fun t => createdAt t < now) st ->
  createTask conn oid now st u b = (resp, st') ->
  fetched st' u = handleCreateTask (axiosTask resp) (fetched st u).
Proof.
  intros Hst Hlater Hcreate.
  destruct (createTask_cases conn oid now st u b)
    as [(_ & _ & _ & Heq) | (e & Heq & _)];
    rewrite Heq in Hcreate; injection Hcreate as <- <-; [|reflexivity].
  destruct (new_Task_fields oid now u b) as (_ & Huser & Hcreated & _).
  assert (chronological (st ++ [fst (new_Task oid now u b)])) as Hst'.
  { apply chronological_snoc; [exact Hst|]. rewrite Hcreated. exact Hlater. }
  rewrite (fetched_chronological _ u Hst'), (fetched_chronological _ u Hst).
  rewrite filter_app, filter_cons_True, filter_nil by exact Huser.
  rewrite reverse_snoc. reflexivity.
Qed.

(** What a refetch returns after an update that keeps the owner. *)
Lemma refetch_after_update conn now st u taskId b resp st' :
  chronological st ->
  uniqueIds st ->
  newOwner b = None \/ newOwner b = Some u ->
  updateTask conn now st u (CastOk taskId) b = (resp, st') ->
  fetched st' u = handleUpdateTask taskId (axiosTask resp) (fetched st u).
Proof.
  intros Hst Hunique Hkeep Hupdate.
  destruct (decide (statusCode resp = 200%nat)) as [Hok|Hfail].
  - destruct (updateTask_updated _ _ _ _ _ _ _ _ Hupdate Hok)
      as (oid & upd & i & t & [= <-] & -> & Hcast & Hvalid & Hfind & -> & ->).
    apply list_find_matches in Hfind as (Hi & Hid & Hown).
    assert (ownedBy u (applyUpdate now upd t)) as Hown'.
    { unfold ownedBy. rewrite (applyUpdate_user now b upd t Hcast).
      destruct Hkeep as [-> | ->]; simpl; [exact Hown|reflexivity]. }
    assert (chronological (<[i := applyUpdate now upd t]> st)) as Hst'
      by (apply (chronological_insert st i t _ Hst Hi); reflexivity).
    rewrite (fetched_chronological _ u Hst'), (fetched_chronological _ u Hst).
    rewrite (filter_insert_owned st i t _ u Hunique Hi Hown Hown').
    unfold axiosTask, handleUpdateTask. simpl.
    rewrite Hid. symmetry. apply fmap_reverse.
  - destruct (updateTask_failed _ _ _ _ _ _ _ _ Hupdate Hfail) as [-> ->].
    reflexivity.
Qed.

(** C10 as stated fails.  The handlers write the list they captured when
    they were started.  User 7 has one task listed and starts two
    creations before either is answered; the server stores both new
    tasks.  The first answer puts its task at the front; the second
    successful [handleCreateTask] then writes its own task in front of
    the captured list, and the task of the first answer, which was in
    the list, is gone, while a refetch would list all three. *)
Lemma overlapping_answer_drops_task :
  let s0 := {| App.token := Some "t"; App.isAuthenticated := true;
               App.tasks := fetched [taskY] 7%N; App.loading := false |} in
  let r1 := fst (createTask Connected 1%N 100 [taskY] 7%N (titleOnly "X")) in
  let r2 := fst (createTask Connected 3%N 300 [taskY; taskX] 7%N
                   (titleOnly "Z")) in
  axiosTask r1 = Some taskX
  /\ axiosTask r2 = Some taskZ
  /\ App.tasks (fst (App.run [App.StartCreate; App.StartCreate;
                              App.Answer 0 r1] (s0, [])))
     = [taskX; taskY]
  /\ App.tasks (fst (App.run [App.StartCreate; App.StartCreate;
                              App.Answer 0 r1; App.Answer 0 r2] (s0, [])))
     = [taskZ; taskY]
  /\ (taskX ∉ App.tasks (fst (App.run [App.StartCreate; App.StartCreate;
                                       App.Answer 0 r1; App.Answer 0 r2]
                                (s0, []))))
  /\ fetched [taskY; taskX; taskZ] 7%N = [taskZ; taskX; taskY].
Proof.
  simpl. split; [reflexivity|]. split; [reflexivity|].
  split; [reflexivity|]. split; [reflexivity|]. split; [|reflexivity].
  change (taskX ∉ [taskZ; taskY]).
  intros [H | [H | H%elem_of_nil]%elem_of_cons]%elem_of_cons;
    [discriminate H|discriminate H|exact H].
Qed.

(** C10, amended: a successful [handleCreateTask] sets the list to the
    created task followed by the list its handler captured when it was
    started, and a successful [handleUpdateTask] sets it to the captured
    list with the tasks of the matching [_id] replaced in place; a failed
    one leaves the list alone.  When no other answer is handled between
    the start of the handler and its answer, whatever else is in flight,
    the captured list is the current one: the created task comes first
    and every other task keeps its content one position further; an
    update keeps the length and every task of another [_id] where it was.
    When moreover the list is what the server lists for the user, on a
    collection in the order of creation with a clock that moves forward
    and distinct ids, and the update does not hand the task over, the
    list after the answer is again what the server lists, and so is
    newest first. *)
Theorem client_list_after_answer (s : App.State) (calls : list App.Call) :
  (forall r d,
      axiosTask r = Some d ->
      let after := App.tasks (fst (App.run [App.StartCreate;
                                             App.Answer (length calls) r]
                                     (s, calls))) in
      after = d :: App.tasks s
      /\ forall i, after !! S i = App.tasks s !! i)
  /\ (forall taskId r d,
        axiosTask r = Some d ->
        let after := App.tasks (fst (App.run [App.StartUpdate taskId;
                                               App.Answer (length calls) r]
                                       (s, calls))) in
        length after = length (App.tasks s)
        /\ (forall i t, App.tasks s !! i = Some t -> _id t = taskId ->
              after !! i = Some d)
        /\ (forall i t, App.tasks s !! i = Some t -> _id t <> taskId ->
              after !! i = Some t))
  /\ (forall r taskId,
        axiosTask r = None ->
        App.tasks (fst (App.run [App.StartCreate; App.Answer (length calls) r]
                          (s, calls))) = App.tasks s
        /\ App.tasks (fst (App.run [App.StartUpdate taskId;
                                    App.Answer (length calls) r] (s, calls)))
           = App.tasks s)
  /\ (forall conn oid now st u b resp st',
        StronglySorted (fun a b => createdAt a < createdAt b) st ->
        Forall (fun t => createdAt t < now) st ->
        App.tasks s = fetched st u ->
        createTask conn oid now st u b = (resp, st') ->
        let after := App.tasks (fst (App.run [App.StartCreate;
                                               App.Answer (length calls) resp]
                                       (s, calls))) in
        after = fetched st' u
        /\ StronglySorted (fun a b => createdAt b <= createdAt a) after)
  /\ (forall conn now st u taskId b resp st',
        StronglySorted (fun a b => createdAt a < createdAt b) st ->
        uniqueIds st ->
        newOwner b = None \/ newOwner b = Some u ->
        App.tasks s = fetched st u ->
        updateTask conn now st u (CastOk taskId) b = (resp, st') ->
        let after := App.tasks (fst (App.run [App.StartUpdate taskId;
                                               App.Answer (length calls) resp]
                                       (s, calls))) in
        after = fetched st' u
        /\ StronglySorted (fun a b => createdAt b <= createdAt a) after).
Proof.
  split; [|split; [|split; [|split]]].
  - intros r d Hr after. subst after. rewrite create_answered, Hr.
    split; reflexivity.
  - intros taskId r d Hr after. subst after. rewrite update_answered, Hr.
    unfold handleUpdateTask. split; [apply length_map|]. split.
    + intros i t Hi Hid. change (map ?f ?l) with (f <$> l).
      rewrite list_lookup_fmap, Hi. simpl.
      destruct (decide (_id t = taskId)); [reflexivity|contradiction].
    + intros i t Hi Hid. change (map ?f ?l) with (f <$> l).
      rewrite list_lookup_fmap, Hi. simpl.
      destruct (decide (_id t = taskId)); [contradiction|reflexivity].
  - intros r taskId Hr. rewrite create_answered, update_answered, Hr.
    split; reflexivity.
  - intros conn oid now st u b resp st' Hst Hlater Hsync Hcreate after.
    assert (after = fetched st' u) as Hafter.
    { subst after. rewrite create_answered, Hsync. symmetry.
      apply (refetch_after_create conn oid now st u b resp st' Hst Hlater
               Hcreate). }
    split; [exact Hafter|]. rewrite Hafter. apply fetched_newestFirst.
  - intros conn now st u taskId b resp st' Hst Hunique Hkeep Hsync Hupdate
      after.
    assert (after = fetched st' u) as Hafter.
    { subst after. rewrite update_answered, Hsync. symmetry.
      apply (refetch_after_update conn now st u taskId b resp st' Hst Hunique
               Hkeep Hupdate). }
    split; [exact Hafter|]. rewrite Hafter. apply fetched_newestFirst.
Qed.

Lemma client_list_after_answer_witness :
  let s0 := {| App.token := Some "t"; App.isAuthenticated := true;
               App.tasks := fetched [taskY; taskX] 7%N;
               App.loading := false |} in
  let resp := fst (createTask Connected 3%N 300 [taskY; taskX] 7%N
                     (titleOnly "Z")) in
  let after := App.tasks (fst (App.run [App.StartCreate; App.Answer 1 resp]
                                 (s0, [App.FetchTasks]))) in
  after = [taskZ; taskX; taskY]
  /\ StronglySorted (fun a b => createdAt b <= createdAt a) after.
Proof.
  intros s0 resp after.
  assert (StronglySorted (fun a b => createdAt a < createdAt b) [taskY; taskX])
    as Hst by (repeat constructor).
  assert (Forall (fun t => createdAt t < 300) [taskY; taskX]) as Hlater
    by (repeat constructor).
  destruct (proj1 (proj2 (proj2 (proj2
              (client_list_after_answer s0 [App.FetchTasks]))))
              Connected 3%N 300 [taskY; taskX] 7%N (titleOnly "Z") resp
              [taskY; taskX; taskZ] Hst Hlater eq_refl eq_refl)
    as [Hafter Hsorted].
  split; [exact Hafter|exact Hsorted].
Defined.
